(** * pynapple.core.utils: interval-set repair and time-aligned dispatch

    A shallow embedding of [src/pynapple/core/utils.py].

    Numbers.  The arrays handled by the source hold float64 values.  A
    finite float64 value is modelled by the rational [Q] that it denotes.
    The comparisons [==] and [<] and [max] of the source are exact on
    these.  The arithmetic of the source that rounds, [newend -= 1.0e-6],
    [1 / (10**P)] and the [a - b] of [np.allclose], is the exact operation
    followed by [round64], the rounding to the nearest binary64 value,
    ties to even; the literal [1.0e-6] is [round64] of one millionth.
    Infinities, NaN and overflow are left out.

    Arrays.  A one-dimensional array is a [list]; reading is stdpp's lookup
    [l !! k], writing is stdpp's insert [<[k:=x]> l].  Out-of-range
    accesses are made explicit as errors of the [res] monad.  An array of
    more dimensions is the list of its slices along the leading axis.

    Exceptions.  A Python exception is an [Err] result; the loops of the
    source are run by [while] with fuel, and the fuel is proved sufficient.

    Other files.  [numpy] is modelled on the leading axis, as far as the
    wrappers depend on it.  What [utils.py] uses of the rest of pynapple
    (configuration, container classes, [IntervalSet.union]) is a parameter
    of the model, class [Pynapple]. *)

From Stdlib Require Import ZArith QArith Qabs Qpower Qreduction Lqa Lia String.
From stdpp Require Import base list strings.

(** ** A small error monad *)

Inductive exn : Type :=
  | IndexError            (* an index outside of a list or array *)
  | ValueError            (* raised by the numeric engine *)
  | ZeroDivisionError
  | TypeError
  | AttributeError
  | RuntimeError (msg : string)
  | FuelExhausted.        (* artefact of the model: a loop ran out of fuel *)

Inductive res (A : Type) : Type :=
  | Ok (a : A)
  | Err (e : exn).
Arguments Ok {A} a.
Arguments Err {A} e.

#[global] Instance res_ret : MRet res := fun A a => Ok a.
#[global] Instance res_bind : MBind res :=
  fun A B f m => match m with Ok a => f a | Err e => Err e end.
#[global] Instance res_fmap : FMap res :=
  fun A B f m => match m with Ok a => Ok (f a) | Err e => Err e end.

(** [a[k]] on a list, raising on an index out of range. *)
Definition read {A} (a : list A) (k : nat) : res A :=
  match a !! k with
  | Some x => Ok x
  | None => Err IndexError
  end.

(** ** Rational comparisons as the source writes them *)

Definition Qlt_bool (x y : Q) : bool := negb (Qle_bool y x).

(** Python's [max(a, b)]: the first argument unless the second is larger. *)
Definition pymax (a b : Q) : Q := if Qlt_bool a b then b else a.

(** ** binary64 arithmetic *)

(** The integer nearest to [n / d], ties to the even one ([n >= 0],
    [d > 0]). *)
Definition div_half_even (n d : Z) : Z :=
  let q := (n / d)%Z in
  let r := (n mod d)%Z in
  match (2 * r ?= d)%Z with
  | Lt => q
  | Gt => (q + 1)%Z
  | Eq => if Z.even q then q else (q + 1)%Z
  end.

(** [floor (log2 (n / d))] for positive [n] and [d]. *)
Definition ilog2 (n d : Z) : Z :=
  let e := (Z.log2 n - Z.log2 d)%Z in
  if (0 <=? e)%Z then (if (d * 2 ^ e <=? n)%Z then e else e - 1)%Z
  else (if (d <=? n * 2 ^ (- e))%Z then e else e - 1)%Z.

(** The binary64 value nearest to [n / d] for positive [n] and [d]: a
    multiple of the unit in the last place [2 ^ ex], with 53 significant
    bits, or fewer below [2 ^ -1022]. *)
Definition round_pos (n d : Z) : Q :=
  let ex := (Z.max (ilog2 n d) (-1022) - 52)%Z in
  if (0 <=? ex)%Z then inject_Z (div_half_even n (d * 2 ^ ex) * 2 ^ ex)
  else Qred (div_half_even (n * 2 ^ (- ex)) d # Z.to_pos (2 ^ (- ex))).

Definition round64 (x : Q) : Q :=
  let y := Qred x in
  match Qnum y with
  | Z0 => 0%Q
  | Zpos n => round_pos (Zpos n) (Zpos (Qden y))
  | Zneg n => (- round_pos (Zpos n) (Zpos (Qden y)))%Q
  end.

(** [x - y] on float64 values. *)
Definition fsub (x y : Q) : Q := round64 (x - y).

Arguments round64 : simpl never.
Arguments fsub : simpl never.

(** ** Loops *)

Inductive ctl : Type := Continue | Break.

(** [while cond: body], where the body says whether it ended in [break].
    Testing the condition costs no fuel; each iteration costs one unit. *)
Fixpoint while {S : Type} (fuel : nat) (cond : S -> bool)
    (body : S -> res (ctl * S)) (s : S) {struct fuel} : res S :=
  if cond s then
    match fuel with
    | O => Err FuelExhausted
    | Datatypes.S fuel' =>
        match body s with
        | Ok (Continue, s') => while fuel' cond body s'
        | Ok (Break, s') => Ok s'
        | Err e => Err e
        end
    end
  else Ok s.

(** ** The interval-set normalizer [_jitfix_iset] *)

Module Jitfix.

(** The local variables of [_jitfix_iset]. *)
Record state : Type := State {
  to_warn : list bool;
  data : list (Q * Q);
  i : nat;
  ct : nat;
  newstart : Q;
  newend : Q
}.

Definition set_i (v : nat) (s : state) : state :=
  State (to_warn s) (data s) v (ct s) (newstart s) (newend s).
Definition set_ct (v : nat) (s : state) : state :=
  State (to_warn s) (data s) (i s) v (newstart s) (newend s).
Definition set_newstart (v : Q) (s : state) : state :=
  State (to_warn s) (data s) (i s) (ct s) v (newend s).
Definition set_newend (v : Q) (s : state) : state :=
  State (to_warn s) (data s) (i s) (ct s) (newstart s) v.
Definition set_data (v : list (Q * Q)) (s : state) : state :=
  State (to_warn s) v (i s) (ct s) (newstart s) (newend s).
(** [to_warn[k] = True] *)
Definition warn (k : nat) (s : state) : state :=
  State (<[k:=true]> (to_warn s)) (data s) (i s) (ct s) (newstart s) (newend s).

(** [data[r, 0] = v] and [data[r, 1] = v] on the two-column buffer. *)
Definition write_col0 (r : nat) (v : Q) (d : list (Q * Q)) : res (list (Q * Q)) :=
  match d !! r with
  | Some row => Ok (<[r:=(v, row.2)]> d)
  | None => Err IndexError
  end.
Definition write_col1 (r : nat) (v : Q) (d : list (Q * Q)) : res (list (Q * Q)) :=
  match d !! r with
  | Some row => Ok (<[r:=(row.1, v)]> d)
  | None => Err IndexError
  end.

(** The literal [1.0e-6]: the float64 value nearest to one millionth. *)
Definition epsilon : Q := round64 (1 # 1000000).

Section Body.
Variables start end_ : list Q.

(** [m = start.shape[0]] *)
Definition m : nat := length start.

(** Lines 277-284: skip the intervals whose end equals their start. *)
Definition skip_empty (s : state) : res state :=
  while m (fun s => i s <? m)
    (fun s =>
       e ← read end_ (i s);
       b ← read start (i s);
       if Qeq_bool e b then
         Ok (Continue, set_i (i s + 1) (warn 3 s))
       else
         Ok (Break, set_newend e (set_newstart b s)))
    s.

(** Lines 286-293: skip the intervals whose end precedes their start. *)
Definition skip_inverted (s : state) : res state :=
  while m (fun s => i s <? m)
    (fun s =>
       e ← read end_ (i s);
       b ← read start (i s);
       if Qlt_bool e b then
         Ok (Continue, set_i (i s + 1) (warn 1 s))
       else
         Ok (Break, set_newend e (set_newstart b s)))
    s.

(** Lines 298-304: absorb the following intervals while the next start
    precedes the end at the cursor. *)
Definition merge (s : state) : res state :=
  while m (fun s => i s <? m - 1)
    (fun s =>
       b ← read start (i s + 1);
       e ← read end_ (i s);
       if Qlt_bool b e then
         let s1 := set_i (i s + 1) (warn 2 s) in
         x ← read end_ (i s1 - 1);
         y ← read end_ (i s1);
         Ok (Continue, set_newend (pymax x y) s1)
       else
         Ok (Break, s))
    s.

(** Lines 306-309: at a touching boundary, [newend -= 1.0e-6]. *)
Definition shrink (s : state) : res state :=
  if i s <? m - 1 then
    b ← read start (i s + 1);
    if Qeq_bool (newend s) b then
      Ok (set_newend (fsub (newend s) epsilon) (warn 0 s))
    else Ok s
  else Ok s.

(** Lines 311-315: emit the interval and advance. *)
Definition emit (s : state) : res state :=
  d ← write_col0 (ct s) (newstart s) (data s);
  d ← write_col1 (ct s) (newend s) d;
  Ok (set_i (i s + 1) (set_ct (ct s + 1) (set_data d s))).

(** Lines 274-315: one iteration of the outer loop. *)
Definition body (s : state) : res (ctl * state) :=
  b ← read start (i s);
  e ← read end_ (i s);
  s ← skip_empty (set_newend e (set_newstart b s));
  s ← skip_inverted s;
  if m <=? i s then Ok (Break, s)
  else
    s ← merge s;
    s ← shrink s;
    s ← emit s;
    Ok (Continue, s).

(** Lines 267-271: the state on entry. [newstart] and [newend] are
    not yet bound in the source; they are assigned before any use. *)
Definition init : state :=
  State (replicate 4 false) (replicate m (0, 0)%Q) 0 0 0%Q 0%Q.

(** Lines 273-315: the outer loop. *)
Definition loop : res state :=
  while m (fun s => i s <? m) body init.

(** [_jitfix_iset(start, end)]: the truncated buffer and the flags. *)
Definition _jitfix_iset : res (list (Q * Q) * list bool) :=
  s ← loop;
  Ok (take (ct s) (data s), to_warn s).
End Body.

(** *** Vocabulary for the statements *)

(** [a[k]] when [k] is known to be in range. *)
Definition at_ (a : list Q) (k : nat) : Q := default 0%Q (a !! k).

Definition flag_if (b : bool) (k : nat) (w : list bool) : list bool :=
  if b then <[k:=true]> w else w.

(** The end of a run that starts at [i1] and whose cursor stops at [i2],
    before and after the boundary shrink. *)
Definition merged_end (end_ : list Q) (i1 i2 : nat) : Q :=
  if (i2 =? i1)%nat then at_ end_ i1
  else pymax (at_ end_ (i2 - 1)) (at_ end_ i2).

Definition touches (start : list Q) (e : Q) (i2 : nat) : bool :=
  (i2 <? length start - 1)%nat && Qeq_bool e (at_ start (i2 + 1)).

Definition emitted_end (start end_ : list Q) (i1 i2 : nat) : Q :=
  let e := merged_end end_ i1 i2 in
  if touches start e i2 then fsub e epsilon else e.

(** The strict ordering invariant of an interval array:
    [start[k] < end[k]] for every row and [end[k] < start[k+1]] for every
    adjacent pair of rows. *)
Definition strictly_ordered (d : list (Q * Q)) : Prop :=
  (forall k r, d !! k = Some r -> (r.1 < r.2)%Q) /\
  (forall k r r', d !! k = Some r -> d !! S k = Some r' -> (r.2 < r'.1)%Q).

(** An array sorted in ascending order (not necessarily strictly). *)
Fixpoint ascending (a : list Q) : Prop :=
  match a with
  | x :: (y :: _) as t => (x <= y)%Q /\ ascending t
  | _ => True
  end.

(** No overlapping interval ends before the interval that it overlaps:
    [start[k+1] < end[k]] implies [end[k] <= end[k+1]]. *)
Definition no_nested_overlap (start end_ : list Q) : bool :=
  forallb (fun k => implb (Qlt_bool (at_ start (k + 1)) (at_ end_ k))
                          (Qle_bool (at_ end_ k) (at_ end_ (k + 1))))
          (seq 0 (length start - 1)).

(** No interval without duration directly follows an interval whose end
    precedes its start. *)
Definition no_empty_after_inverted (start end_ : list Q) : bool :=
  forallb (fun k => negb (Qlt_bool (at_ end_ k) (at_ start k)
                          && Qeq_bool (at_ end_ (k + 1)) (at_ start (k + 1))))
          (seq 0 (length start - 1)).

(** The decrement takes effect at the scale of the data: for every end
    [e] that equals some start, the float64 value of [e - 1.0e-6] is
    below [e] and above every start that is below [e]. *)
Definition decrement_effective (start end_ : list Q) : bool :=
  forallb (fun e =>
             implb (existsb (fun b => Qeq_bool e b) start)
                   (Qlt_bool (fsub e epsilon) e
                    && forallb (fun b => implb (Qlt_bool b e)
                                           (Qlt_bool b (fsub e epsilon)))
                               start))
          end_.

(** Every interval has a positive duration. *)
Definition positive_durations (start end_ : list Q) : Prop :=
  Forall2 (fun b e => (b < e)%Q) start end_.

(** The rows emitted for the runs [(ib, ic)] of input positions: a run
    starts at [ib], after the skips, and the merge stops at [ic]. *)
Definition rows_of (start end_ : list Q) (runs : list (nat * nat))
    : list (Q * Q) :=
  map (fun r => (at_ start r.1, emitted_end start end_ r.1 r.2)) runs.

(** What the docstring says of the four flags, on the input arrays: flag 0,
    an end equals a later start; flag 1, an end precedes its own start;
    flag 2, a start precedes the previous end; flag 3, an interval without
    duration. *)
Definition anomaly (start end_ : list Q) (k : nat) : Prop :=
  match k with
  | 0 => exists j n b e, (j <= n)%nat /\ end_ !! j = Some e /\
           start !! S n = Some b /\ (e == b)%Q
  | 1 => exists n b e, start !! n = Some b /\ end_ !! n = Some e /\ (e < b)%Q
  | 2 => exists n b e, start !! S n = Some b /\ end_ !! n = Some e /\ (b < e)%Q
  | 3 => exists n b e, start !! n = Some b /\ end_ !! n = Some e /\ (e == b)%Q
  | _ => False
  end.

(** What every iteration of the outer loop keeps: the buffer has its
    allocated size, and no more rows are emitted than input consumed. *)
Definition base_inv (start : list Q) (s : state) : Prop :=
  length (data s) = m start /\ (ct s <= i s)%nat /\ (i s <= m start)%nat.

End Jitfix.

Import Jitfix.

(** ** The time-aligned dispatch: [_check_time_equals], [_split_tsd],
       [_concatenate_tsd] *)

Module Dispatch.

(** The second argument of the split functions: a number of sections or
    the list of the (non-negative) cut points. *)
Inductive indices_or_sections : Type :=
  | Sections (n : nat)
  | Indices (cuts : list nat).

(** The numeric engine (numpy) below the leading axis.  An array is the
    list of its slices along the leading axis, so [a.shape[0]] is
    [length a]; [row] is the type of these slices, [rowcat k rows] joins
    slices along the inner axis [k], [split_inner k] splits an array along
    the inner axis [k]. *)
Class NumericEngine : Type := {
  row : Type;
  rowcat : nat -> list row -> res row;
  split_inner : nat -> indices_or_sections -> list row -> res (list (list row));
}.

(** An interval set, by its [values]: the rows [(start, end)]. *)
Definition iset : Type := list (Q * Q).

(** The parts of pynapple that [utils.py] calls and that are defined in
    other files: the configured precision [nap_config.time_index_precision],
    [IntervalSet.union], and the support that a container class computes
    from its index when none is passed to its constructor. *)
Class Pynapple : Type := {
  time_index_precision : nat;
  union : iset -> iset -> iset;
  default_support : list Q -> iset;
}.

Section Model.
Context {engine : NumericEngine} {nap : Pynapple}.

Definition array : Type := list row.

(** *** numpy *)

(** [a[st:en]] for non-negative bounds. *)
Definition slice {A} (a : list A) (st en : nat) : list A :=
  take (en - st) (drop st a).

(** The sub-arrays between consecutive division points. *)
Fixpoint slices {A} (a : list A) (div_points : list nat) : list (list A) :=
  match div_points with
  | st :: (en :: _) as rest => slice a st en :: slices a rest
  | _ => []
  end.

(** [np.array(sizes).cumsum()], started at [acc]. *)
Fixpoint cumsum (acc : nat) (sizes : list nat) : list nat :=
  match sizes with
  | [] => []
  | x :: rest => (acc + x)%nat :: cumsum (acc + x) rest
  end.

(** [np.array_split(ary, indices_or_sections)] along the leading axis. *)
Definition np_array_split {A} (ary : list A) (ios : indices_or_sections)
    : res (list (list A)) :=
  let Ntotal := length ary in
  match ios with
  | Indices cuts => Ok (slices ary ([0%nat] ++ cuts ++ [Ntotal]))
  | Sections Nsections =>
      if (Nsections =? 0)%nat then Err ValueError
      else
        let Neach_section := (Ntotal / Nsections)%nat in
        let extras := (Ntotal mod Nsections)%nat in
        let section_sizes :=
          replicate extras (Neach_section + 1)%nat
          ++ replicate (Nsections - extras) Neach_section in
        Ok (slices ary (0%nat :: cumsum 0 section_sizes))
  end.

(** [np.split(ary, indices_or_sections)] along the leading axis: a number
    of sections has to divide the length. *)
Definition np_split {A} (ary : list A) (ios : indices_or_sections)
    : res (list (list A)) :=
  match ios with
  | Indices _ => np_array_split ary ios
  | Sections sections =>
      if (sections =? 0)%nat then Err ZeroDivisionError
      else if negb (length ary mod sections =? 0)%nat then Err ValueError
      else np_array_split ary ios
  end.

(** [np.concatenate(arrays, axis)]: along the leading axis the slices are
    appended; along an inner axis the operands need the same leading
    length, and the slices at each leading position are joined. *)
Definition np_concatenate_impl (arrays : list array) (axis : option nat)
    : res array :=
  match arrays with
  | [] => Err ValueError
  | a0 :: _ =>
      match default 0%nat axis with
      | O => Ok (concat arrays)
      | S k =>
          if forallb (fun a => (length a =? length a0)%nat) arrays then
            mapM (fun j => rows ← mapM (fun a => read a j) arrays; rowcat k rows)
                 (seq 0 (length a0))
          else Err ValueError
      end
  end.

(** [np.diff(a)] of a one-dimensional array.  The differences are only
    compared with zero (line 207), and the float64 difference of two
    values has the sign of the exact one, so they are not rounded. *)
Definition np_diff (a : list Q) : list Q :=
  zip_with (fun x y => (y - x)%Q) a (tail a).

(** [abs(a - b) <= atol + rtol * abs(b)] with [rtol = 0], on float64
    values: the difference is rounded, [rtol * abs(b)] is zero and adding
    it leaves [atol] as it is. *)
Definition isclose (atol a b : Q) : bool := Qle_bool (Qabs (fsub a b)) atol.

(** [np.allclose(a, b, rtol=0, atol=atol)] on arrays whose slices along
    the leading axis are compared by [close]: leading lengths have to be
    equal, or one of them 1 (broadcasting), else numpy raises. *)
Definition np_allclose {A} (close : A -> A -> bool) (a b : list A) : res bool :=
  if (length a =? length b)%nat then Ok (forallb (fun '(x, y) => close x y) (zip a b))
  else
    match a, b with
    | [x], _ => Ok (forallb (fun y => close x y) b)
    | _, [y] => Ok (forallb (fun x => close x y) a)
    | _, _ => Err ValueError
    end.

(** [itertools.combinations(l, 2)] *)
Fixpoint combinations2 {A} (l : list A) : list (A * A) :=
  match l with
  | [] => []
  | x :: rest => map (pair x) rest ++ combinations2 rest
  end.

(** [all(map(f, l))]: stops at the first false, raises what [f] raises. *)
Fixpoint all_map {A} (f : A -> res bool) (l : list A) : res bool :=
  match l with
  | [] => Ok true
  | x :: rest => b ← f x; if b : bool then all_map f rest else Ok false
  end.

(** *** [_check_time_equals] *)

(** [1 / (10**nap_config.time_index_precision)]: the quotient of two
    Python integers, rounded to float64. *)
Definition atol : Q := round64 (1 / (10 ^ Z.of_nat time_index_precision))%Q.

Definition _check_time_equals {A} (close : Q -> A -> A -> bool)
    (time_arrays : list (list A)) : res bool :=
  all_map (fun x => np_allclose (close atol) x.1 x.2) (combinations2 time_arrays).

(** Closeness of the entries of an index, and of the rows of a support. *)
Definition close_time (atol a b : Q) : bool := isclose atol a b.
Definition close_interval (atol : Q) (a b : Q * Q) : bool :=
  isclose atol a.1 b.1 && isclose atol a.2 b.2.

(** *** Python objects *)

(** An operand, by the attributes that the wrappers look up: an attribute
    that the object lacks is [None].  [as_array] is the array that the
    numeric engine sees when it is given the object itself, and
    [has_shape] tells whether the object itself has a [.shape]: an
    [ndarray] has one, a nested list or tuple has none.  [values], when
    present, is an [ndarray]; [index] stands for [arg.index.values] and
    [columns] for what the wrappers read of [arg.columns]. *)
Record pyobj : Type := PyObj {
  __class__ : string;
  as_array : array;
  has_shape : bool;
  values : option array;
  index : option (list Q);
  time_support : option iset;
  nap_class : option string;
  columns : option (list string)
}.

(** A call [cls(t=..., d=..., time_support=..., columns=...)] of the
    constructor of a container class; omitted keywords are [None]. *)
Record call : Type := Call {
  callee : string;
  t : list Q;
  d : array;
  kw_time_support : option iset;
  kw_columns : option (list string)
}.

(** Modelled from the spec: the constructors of the container classes
    (defined outside of [utils.py]).  The new container carries the given
    value array, time index, support and column labels; when no support is
    passed, the class computes one from the index. *)
Definition construct (c : call) : pyobj :=
  PyObj (callee c) (d c) true (Some (d c)) (Some (t c))
        (Some (default (default_support (t c)) (kw_time_support c)))
        (Some (callee c)) (kw_columns c).

(** What a wrapper returns.  A container stands for the call of its
    constructor: the wrappers end with that call, and what the constructor
    makes of its arguments is decided outside of [utils.py]. *)
Inductive retval : Type :=
  | Container (c : call)
  | Containers (cs : list call)
  | NdArray (a : array)
  | NdArrays (a : list array).

(** [obj.attr], raising when the attribute is missing. *)
Definition getattr {A} (attr : option A) : res A :=
  match attr with
  | Some x => Ok x
  | None => Err AttributeError
  end.

(** *** [_split_tsd] *)

Inductive split_name : Type :=
  | split | array_split | vsplit | dsplit | hsplit | other_split.

(** A numpy split function: its identity and its [_implementation]. *)
Record split_function : Type := SplitFunction {
  split_id : split_name;
  split_implementation : array -> indices_or_sections -> option nat -> res (list array)
}.

Definition is_row_split (f : split_function) : bool :=
  match split_id f with
  | split | array_split | vsplit => true
  | _ => false
  end.

Definition is_col_split (f : split_function) : bool :=
  match split_id f with
  | dsplit | hsplit => true
  | _ => false
  end.

Definition _split_tsd (func : split_function) (tsd : pyobj)
    (ios : indices_or_sections) (axis : nat) : res retval :=
  if is_row_split func && (axis =? 0)%nat then
    vals ← getattr (values tsd);
    out ← split_implementation func vals ios None;
    ix ← getattr (index tsd);
    index_list ← np_split ix ios;
    let kwargs := columns tsd in
    Ok (Containers
          (map (fun td => Call (__class__ tsd) td.1 td.2 None kwargs)
               (zip index_list out)))
  else if is_col_split func then
    vals ← getattr (values tsd);
    out ← split_implementation func vals ios None;
    let kwargs := columns tsd in
    ix ← getattr (index tsd);
    Ok (Containers (map (fun d => Call (__class__ tsd) ix d None kwargs) out))
  else
    vals ← getattr (values tsd);
    out ← split_implementation func vals ios (Some axis);
    Ok (NdArrays out).

(** *** [_concatenate_tsd] *)

(** A numpy joining function: whether it is [np.concatenate], and its
    [_implementation], called with the arrays and the [axis] keyword. *)
Record join_function : Type := JoinFunction {
  is_concatenate : bool;
  join_implementation : list array -> option nat -> res array
}.

(** A further positional argument. *)
Inductive pyarg : Type :=
  | PyInt (n : nat)
  | PyOther.

(** The lists filled by the loop over the operands.  An entry of [arrays]
    is the array that numpy makes of the appended object, with whether
    that object has a [.shape]. *)
Record collected : Type := Collected {
  arrays : list (array * bool);
  time_indexes : list (list Q);
  time_supports : list iset;
  nap_types : list string;
  columns_ : list (list string);
  nap_class_ : option string
}.

(** Lines 184-198: one operand. *)
Definition collect (acc : collected) (arg : pyobj) : collected :=
  match values arg, index arg, time_support arg, nap_class arg with
  | Some v, Some ix, Some ts, Some nt =>
      Collected (arrays acc ++ [(v, true)]) (time_indexes acc ++ [ix])
        (time_supports acc ++ [ts]) (nap_types acc ++ [nt])
        (match columns arg with
         | Some c => columns_ acc ++ [c]
         | None => columns_ acc
         end)
        (Some (__class__ arg))
  | _, _, _, _ =>
      Collected (arrays acc ++ [(as_array arg, has_shape arg)])
        (time_indexes acc)
        (time_supports acc) (nap_types acc) (columns_ acc) (nap_class_ acc)
  end.

(** [a.shape[0]] of an entry of [arrays]. *)
Definition shape0 (a : array * bool) : res nat :=
  if a.2 then Ok (length a.1) else Err AttributeError.

(** Calling [nap_class(...)]: [None] is not callable. *)
Definition call_class (cls : option string) (t : list Q) (d : array)
    (ts : option iset) (cols : option (list string)) : res retval :=
  match cls with
  | Some c => Ok (Container (Call c t d ts cols))
  | None => Err TypeError
  end.

Definition not_increasing_msg : string :=
  "The order of the time series indexes should be strictly increasing and non overlapping.".
Definition both_msg : string :=
  "Time indexes and time supports are not all equals up to pynapple precision. Returning numpy array!".
Definition indexes_msg : string :=
  "Time indexes are not all equals up to pynapple precision. Returning numpy array!".
Definition supports_msg : string :=
  "Time supports are not all equals up to pynapple precision. Returning numpy array!".

(** [_concatenate_tsd(func, *args, **kwargs)]: [args0] is [args[0]], the
    operands; [args_rest] is [args[1:]]; [kwargs] is the [axis] keyword
    when it is given.  The result comes with the warnings emitted. *)
Definition _concatenate_tsd (func : join_function) (args0 : list pyobj)
    (args_rest : list pyarg) (kwargs : option nat)
    : res (retval * list string) :=
  let kwargs :=
    if is_concatenate func then
      match kwargs, args_rest with
      | None, PyInt n :: _ => Some n
      | None, PyOther :: _ => Some 0%nat
      | _, _ => kwargs
      end
    else kwargs in
  let c := foldl collect (Collected [] [] [] [] [] None) args0 in
  output ← join_implementation func (arrays c).*1 kwargs;
  first ← read (arrays c) 0;
  n0 ← shape0 first;
  if (n0 <? length output)%nat then
    if (length (time_indexes c) =? length (arrays c))%nat
       && (length (time_supports c) =? length (arrays c))%nat then
      let new_index := concat (time_indexes c) in
      if existsb (fun x => Qle_bool x 0) (np_diff new_index) then
        Err (RuntimeError not_increasing_msg)
      else
        ts0 ← read (time_supports c) 0;
        let time_support := foldl union ts0 (tail (time_supports c)) in
        let new_kwargs := head (columns_ c) in
        r ← call_class (nap_class_ c) new_index output (Some time_support) new_kwargs;
        Ok (r, [])
    else Ok (NdArray output, [])
  else
    if (length (time_indexes c) =? 1)%nat then
      t0 ← read (time_indexes c) 0;
      ts0 ← read (time_supports c) 0;
      r ← call_class (nap_class_ c) t0 output (Some ts0) None;
      Ok (r, [])
    else
      time_equal ← _check_time_equals close_time (time_indexes c);
      support_equal ← _check_time_equals close_interval (time_supports c);
      if time_equal && support_equal then
        t0 ← read (time_indexes c) 0;
        ts0 ← read (time_supports c) 0;
        r ← call_class (nap_class_ c) t0 output (Some ts0) None;
        Ok (r, [])
      else
        let msg :=
          if negb time_equal && negb support_equal then both_msg
          else if negb time_equal && support_equal then indexes_msg
          else supports_msg in
        Ok (NdArray output, [msg]).

(** [np.concatenate] and [np.split] themselves. *)
Definition np_concatenate : join_function :=
  JoinFunction true np_concatenate_impl.

Definition np_split_impl (ary : array) (ios : indices_or_sections)
    (axis : option nat) : res (list array) :=
  match default 0%nat axis with
  | O => np_split ary ios
  | S k => split_inner k ios ary
  end.

Definition np_split_function : split_function :=
  SplitFunction split np_split_impl.

(** [np.array_split], which allows sections of unequal lengths. *)
Definition np_array_split_impl (ary : array) (ios : indices_or_sections)
    (axis : option nat) : res (list array) :=
  match default 0%nat axis with
  | O => np_array_split ary ios
  | S k => split_inner k ios ary
  end.

Definition np_array_split_function : split_function :=
  SplitFunction array_split np_array_split_impl.

(** [np.hsplit] on arrays of two or more dimensions: [np.split] along
    axis 1. *)
Definition np_hsplit_impl (ary : array) (ios : indices_or_sections)
    (axis : option nat) : res (list array) :=
  np_split_impl ary ios (Some 1%nat).

Definition np_hsplit_function : split_function :=
  SplitFunction hsplit np_hsplit_impl.

(** *** Vocabulary for the statements *)

(** The operand exposes [values], [index], [time_support] and [nap_class]. *)
Definition exposes_metadata (arg : pyobj) : bool :=
  match values arg, index arg, time_support arg, nap_class arg with
  | Some _, Some _, Some _, Some _ => true
  | _, _, _, _ => false
  end.

(** What the operand contributes to the numeric operation. *)
Definition operand_array (arg : pyobj) : array :=
  if exposes_metadata arg then default (as_array arg) (values arg)
  else as_array arg.

(** Whether what the operand contributes has a [.shape]. *)
Definition operand_has_shape (arg : pyobj) : bool :=
  exposes_metadata arg || has_shape arg.

Definition operand_entry (arg : pyobj) : array * bool :=
  (operand_array arg, operand_has_shape arg).

Definition operand_index (arg : pyobj) : option (list Q) :=
  if exposes_metadata arg then index arg else None.

Definition operand_support (arg : pyobj) : option iset :=
  if exposes_metadata arg then time_support arg else None.

Definition operand_columns (arg : pyobj) : option (list string) :=
  if exposes_metadata arg then columns arg else None.

Definition operand_class (arg : pyobj) : option string :=
  if exposes_metadata arg then Some (__class__ arg) else None.

(** The [axis] keyword that reaches the numeric engine (lines 176-181). *)
Definition effective_axis (func : join_function) (args_rest : list pyarg)
    (kwargs : option nat) : option nat :=
  if is_concatenate func then
    match kwargs, args_rest with
    | None, PyInt n :: _ => Some n
    | None, PyOther :: _ => Some 0%nat
    | _, _ => kwargs
    end
  else kwargs.

(** A time index as the data model has it: strictly increasing. *)
Definition strictly_increasing (ix : list Q) : Prop :=
  forall k x y, ix !! k = Some x -> ix !! S k = Some y -> (x < y)%Q.

(** The points of time covered by an interval set. *)
Definition covers (s : iset) (x : Q) : Prop :=
  exists r, r ∈ s /\ (r.1 <= x)%Q /\ (x <= r.2)%Q.

End Model.

(** *** Instances on which the model is run

    Two-dimensional arrays: a slice along the leading axis is a list of
    numbers. *)
Definition transpose_pieces (n : nat) (per_row : list (list (list Q)))
    : list (list (list Q)) :=
  map (fun j => map (fun pieces => default [] (pieces !! j)) per_row) (seq 0 n).

#[export] Instance matrix_engine : NumericEngine := {|
  row := list Q;
  rowcat := fun k rows =>
    match k with
    | O => Ok (concat rows)
    | S _ => Err ValueError
    end;
  split_inner := fun k ios ary =>
    match k with
    | O =>
        per_row ← mapM (fun r => np_split r ios) ary;
        Ok (transpose_pieces
              (match ios with
               | Sections n => n
               | Indices cuts => length cuts + 1
               end) per_row)
    | S _ => Err IndexError
    end
|}.

(** A stand-in for the rest of pynapple: nine digits of precision, the
    support of an index spans it from its first to its last entry, and a
    union keeps the rows of both sets. *)
Definition example_nap : Pynapple := {|
  time_index_precision := 9;
  union := fun a b => a ++ b;
  default_support := fun ix =>
    match head ix, last ix with
    | Some x, Some y => [(x, y)]
    | _, _ => []
    end
|}.

(** A [TsdFrame] with the given index, values and support, whose columns
    are labelled [labels], and a bare two-dimensional array. *)
Definition labels : list string := ["a"%string].

Definition frame (ix : list Q) (v : list (list Q)) (ts : iset) : pyobj :=
  PyObj "TsdFrame"%string v true (Some v) (Some ix) (Some ts)
        (Some "TsdFrame"%string) (Some labels).

Definition ndarray (v : list (list Q)) : pyobj :=
  PyObj "ndarray"%string v true None None None None None.


End Dispatch.

Import Dispatch.

(** ** The column selector [_TsdFrameSliceHelper] *)

Module SliceHelper.

(** What [__getitem__] raises: the [IndexError(str(k))] of lines 330 and
    334, and the [InvalidIndexError] of pandas' [Index.get_indexer] on an
    index with repeated labels. *)
Inductive raised : Type :=
  | IndexError_ (msg : string)
  | InvalidIndexError.

Section Helper.
Context {label : Type} `{EqDecision label}.

(** [str(k)] of a label. *)
Variable str : label -> string.

(** A key: one label (a string is one label), or an iterable of labels. *)
Inductive key : Type :=
  | Scalar (k : label)
  | Iterable (ks : list label).

(** What is passed on to [tsdframe.__getitem__]: line 338,
    [(slice(None, None, None), index[0])], and line 340,
    [(slice(None, None, None), index)] with [columns=key]. *)
Inductive getitem_call : Type :=
  | GetColumn (pos : Z)
  | GetColumns (pos : list Z) (columns : list label).

(** The first position of a label in the index. *)
Fixpoint index_of (k : label) (columns : list label) : option nat :=
  match columns with
  | [] => None
  | c :: rest => if decide (c = k) then Some 0%nat else S <$> index_of k rest
  end.

(** [columns.get_indexer(target)]: the position of every target label,
    [-1] where it is missing; the index has to be free of repetitions. *)
Definition get_indexer (columns target : list label) : raised + list Z :=
  if bool_decide (NoDup columns) then
    inr (map (fun k => from_option Z.of_nat (-1)%Z (index_of k columns)) target)
  else inl InvalidIndexError.

(** Lines 326-342. *)
Definition __getitem__ (columns : list label) (key_ : key)
    : raised + getitem_call :=
  let index :=
    match key_ with
    | Iterable ks =>
        match list_find (fun k => k ∉ columns) ks with
        | Some (_, k) => inl (IndexError_ (str k))
        | None => get_indexer columns ks
        end
    | Scalar k =>
        if bool_decide (k ∉ columns) then inl (IndexError_ (str k))
        else get_indexer columns [k]
    end in
  match index with
  | inl e => inl e
  | inr [pos] => inr (GetColumn pos)
  | inr index =>
      inr (GetColumns index
             (match key_ with Iterable ks => ks | Scalar k => [k] end))
  end.

End Helper.

End SliceHelper.

(** * Properties *)

(** ** Comparisons *)

Lemma Qlt_bool_iff (x y : Q) : Qlt_bool x y = true <-> (x < y)%Q.
Proof.
  unfold Qlt_bool. rewrite negb_true_iff.
  destruct (Qle_bool y x) eqn:E.
  - apply Qle_bool_iff in E. split; [discriminate | intros H; exfalso; lra].
  - split; [intros _ | reflexivity].
    destruct (Qlt_le_dec x y) as [H | H]; [exact H |].
    apply Qle_bool_iff in H. congruence.
Qed.

Lemma Qlt_bool_false (x y : Q) : Qlt_bool x y = false <-> (y <= x)%Q.
Proof.
  destruct (Qlt_bool x y) eqn:E.
  - apply Qlt_bool_iff in E. split; [discriminate | intros H; exfalso; lra].
  - split; [intros _ | reflexivity].
    destruct (Qlt_le_dec x y) as [H | H]; [| exact H].
    apply Qlt_bool_iff in H. congruence.
Qed.

Lemma Qeq_bool_false (x y : Q) : Qeq_bool x y = false <-> ~ (x == y)%Q.
Proof.
  split.
  - intros E H. apply Qeq_bool_iff in H. congruence.
  - intros H. destruct (Qeq_bool x y) eqn:E; [| reflexivity].
    apply Qeq_bool_iff in E. contradiction.
Qed.

Lemma pymax_cases (a b : Q) :
  (pymax a b = a /\ (b <= a)%Q) \/ (pymax a b = b /\ (a < b)%Q).
Proof.
  unfold pymax. destruct (Qlt_bool a b) eqn:E.
  - right. split; [reflexivity | by apply Qlt_bool_iff].
  - left. split; [reflexivity | by apply Qlt_bool_false].
Qed.

(** ** The rounding at work *)

(** [0.1] is [3602879701896397 / 2^55]; integers above [2^53] and values
    below [2^-1022] are rounded to even on a tie.  [1.0e-6] is
    [0x1.0c6f7a0b5ed8dp-20].  At [2^35] the decrement is absorbed; at
    [2^33 + 1] it takes away [2^-19]; at 2 the result is
    [0x1.ffffef39085f5p+0].  [1 / 10**9] is above the ninth power of one
    tenth. *)
Lemma round64_examples :
  (round64 (1 # 10) == 3602879701896397 # 36028797018963968)%Q /\
  (round64 9007199254740993 == 9007199254740992)%Q /\
  (round64 9007199254740995 == 9007199254740996)%Q /\
  (round64 (1 # 2 ^ 1075) == 0)%Q /\
  (round64 (3 # 2 ^ 1075) == 1 # 2 ^ 1073)%Q /\
  (epsilon == 4722366482869645 # 4722366482869645213696)%Q /\
  (fsub 34359738368 epsilon == 34359738368)%Q /\
  (8589934593 - fsub 8589934593 epsilon == 1 # 524288)%Q /\
  (fsub 2 epsilon == 9007194751141365 # 4503599627370496)%Q /\
  (1 # 1000000000 < round64 (1 / 10 ^ 9))%Q.
Proof. repeat split; vm_compute; reflexivity. Qed.

(** ** Total correctness of [while] *)

Lemma while_total {S : Type} (Inv Post : S -> Prop) (mu : S -> nat)
    (cond : S -> bool) (body : S -> res (ctl * S)) :
  (forall s, Inv s -> cond s = false -> Post s) ->
  (forall s, Inv s -> cond s = true ->
     (0 < mu s)%nat /\
     exists c s', body s = Ok (c, s') /\
       match c with
       | Continue => Inv s' /\ (mu s' < mu s)%nat
       | Break => Post s'
       end) ->
  forall fuel s, Inv s -> (mu s <= fuel)%nat ->
    exists s', while fuel cond body s = Ok s' /\ Post s'.
Proof.
  intros Hexit Hstep fuel.
  induction fuel as [| fuel IH]; intros s HI Hmu.
  - simpl. destruct (cond s) eqn:Hc.
    + destruct (Hstep s HI Hc) as [Hpos _]. lia.
    + exists s. auto.
  - simpl. destruct (cond s) eqn:Hc.
    + destruct (Hstep s HI Hc) as (_ & c & s' & Hb & Hc').
      rewrite Hb. destruct c.
      * destruct Hc' as [HI' Hlt]. apply IH; [exact HI' | lia].
      * exists s'. auto.
    + exists s. auto.
Qed.

(** ** The loops of [_jitfix_iset] *)

Lemma read_at (a : list Q) (k : nat) :
  (k < length a)%nat -> read a k = Ok (at_ a k).
Proof.
  intros H. unfold read, at_.
  destruct (lookup_lt_is_Some_2 a k H) as [x Hx]. by rewrite Hx.
Qed.

Lemma flag_if_again (b c : bool) (k : nat) (w : list bool) :
  <[k:=true]> (flag_if b k w) = flag_if (b || c || true) k w.
Proof.
  rewrite orb_true_r. unfold flag_if at 2.
  destruct b; simpl; [| reflexivity]. apply list_insert_insert_eq.
Qed.

Section Loops.
Variables start end_ : list Q.
Hypothesis Hlen : length end_ = length start.

Let m := Jitfix.m start.

Lemma skip_empty_spec (s : state) :
  exists s', skip_empty start end_ s = Ok s' /\
    ct s' = ct s /\ data s' = data s /\
    (i s <= i s')%nat /\ (i s' <= max (i s) m)%nat /\
    to_warn s' = flag_if (negb (i s' =? i s)) 3 (to_warn s) /\
    (forall k, (i s <= k < i s')%nat -> (at_ end_ k == at_ start k)%Q) /\
    (((i s' < m)%nat /\ ~ (at_ end_ (i s') == at_ start (i s'))%Q /\
      newstart s' = at_ start (i s') /\ newend s' = at_ end_ (i s')) \/
     ((m <= i s')%nat /\ newstart s' = newstart s /\ newend s' = newend s)).
Proof.
  unfold skip_empty.
  apply (while_total
    (fun s1 => ct s1 = ct s /\ data s1 = data s /\
       (i s <= i s1)%nat /\ (i s1 <= max (i s) m)%nat /\
       to_warn s1 = flag_if (negb (i s1 =? i s)) 3 (to_warn s) /\
       (forall k, (i s <= k < i s1)%nat -> (at_ end_ k == at_ start k)%Q) /\
       newstart s1 = newstart s /\ newend s1 = newend s)
    _ (fun s1 => m - i s1)%nat).
  - intros s1 (Hct & Hd & Hle & Hmax & Hw & Hsk & Hns & Hne) Hc.
    apply Nat.ltb_ge in Hc. fold m in Hc. repeat split; auto.
  - intros s1 (Hct & Hd & Hle & Hmax & Hw & Hsk & Hns & Hne) Hc.
    apply Nat.ltb_lt in Hc. fold m in Hc. split; [lia |].
    rewrite (read_at end_), (read_at start) by (unfold m, Jitfix.m in *; lia).
    simpl. destruct (Qeq_bool _ _) eqn:E.
    + eexists _, _. split; [reflexivity |]. simpl.
      repeat split; try assumption; try lia.
      * rewrite Hw, (flag_if_again _ true).
        replace (i s1 + 1 =? i s)%nat with false
          by (symmetry; apply Nat.eqb_neq; lia).
        by rewrite orb_true_r.
      * intros k Hk. destruct (decide (k = i s1)) as [-> |].
        -- by apply Qeq_bool_iff.
        -- apply Hsk. lia.
    + eexists _, _. split; [reflexivity |]. simpl.
      repeat split; try assumption.
      left. repeat split; [lia | by apply Qeq_bool_false].
  - repeat split; try lia. by rewrite Nat.eqb_refl.
  - subst m. lia.
Qed.

Lemma skip_inverted_spec (s : state) :
  exists s', skip_inverted start end_ s = Ok s' /\
    ct s' = ct s /\ data s' = data s /\
    (i s <= i s')%nat /\ (i s' <= max (i s) m)%nat /\
    to_warn s' = flag_if (negb (i s' =? i s)) 1 (to_warn s) /\
    (forall k, (i s <= k < i s')%nat -> (at_ end_ k < at_ start k)%Q) /\
    (((i s' < m)%nat /\ (at_ start (i s') <= at_ end_ (i s'))%Q /\
      newstart s' = at_ start (i s') /\ newend s' = at_ end_ (i s')) \/
     ((m <= i s')%nat /\ newstart s' = newstart s /\ newend s' = newend s)).
Proof.
  unfold skip_inverted.
  apply (while_total
    (fun s1 => ct s1 = ct s /\ data s1 = data s /\
       (i s <= i s1)%nat /\ (i s1 <= max (i s) m)%nat /\
       to_warn s1 = flag_if (negb (i s1 =? i s)) 1 (to_warn s) /\
       (forall k, (i s <= k < i s1)%nat -> (at_ end_ k < at_ start k)%Q) /\
       newstart s1 = newstart s /\ newend s1 = newend s)
    _ (fun s1 => m - i s1)%nat).
  - intros s1 (Hct & Hd & Hle & Hmax & Hw & Hsk & Hns & Hne) Hc.
    apply Nat.ltb_ge in Hc. fold m in Hc. repeat split; auto.
  - intros s1 (Hct & Hd & Hle & Hmax & Hw & Hsk & Hns & Hne) Hc.
    apply Nat.ltb_lt in Hc. fold m in Hc. split; [lia |].
    rewrite (read_at end_), (read_at start) by (unfold m, Jitfix.m in *; lia).
    simpl. destruct (Qlt_bool _ _) eqn:E.
    + eexists _, _. split; [reflexivity |]. simpl.
      repeat split; try assumption; try lia.
      * rewrite Hw, (flag_if_again _ true).
        replace (i s1 + 1 =? i s)%nat with false
          by (symmetry; apply Nat.eqb_neq; lia).
        by rewrite orb_true_r.
      * intros k Hk. destruct (decide (k = i s1)) as [-> |].
        -- by apply Qlt_bool_iff.
        -- apply Hsk. lia.
    + eexists _, _. split; [reflexivity |]. simpl.
      repeat split; try assumption.
      left. repeat split; [lia | by apply Qlt_bool_false].
  - repeat split; try lia. by rewrite Nat.eqb_refl.
  - subst m. lia.
Qed.

Lemma merge_spec (s : state) :
  (i s < m)%nat ->
  exists s', merge start end_ s = Ok s' /\
    ct s' = ct s /\ data s' = data s /\ newstart s' = newstart s /\
    (i s <= i s')%nat /\ (i s' < m)%nat /\
    to_warn s' = flag_if (negb (i s' =? i s)) 2 (to_warn s) /\
    (forall k, (i s <= k < i s')%nat -> (at_ start (k + 1) < at_ end_ k)%Q) /\
    ((i s' + 1 < m)%nat -> (at_ end_ (i s') <= at_ start (i s' + 1))%Q) /\
    newend s' = (if (i s' =? i s)%nat then newend s
                 else pymax (at_ end_ (i s' - 1)) (at_ end_ (i s'))).
Proof.
  intros Hi. unfold merge.
  apply (while_total
    (fun s1 => ct s1 = ct s /\ data s1 = data s /\ newstart s1 = newstart s /\
       (i s <= i s1)%nat /\ (i s1 < m)%nat /\
       to_warn s1 = flag_if (negb (i s1 =? i s)) 2 (to_warn s) /\
       (forall k, (i s <= k < i s1)%nat -> (at_ start (k + 1) < at_ end_ k)%Q) /\
       newend s1 = (if (i s1 =? i s)%nat then newend s
                    else pymax (at_ end_ (i s1 - 1)) (at_ end_ (i s1))))
    _ (fun s1 => m - i s1)%nat).
  - intros s1 (Hct & Hd & Hns & Hle & Hlt & Hw & Hov & Hne) Hc.
    apply Nat.ltb_ge in Hc. fold m in Hc. repeat split; auto. lia.
  - intros s1 (Hct & Hd & Hns & Hle & Hlt & Hw & Hov & Hne) Hc.
    apply Nat.ltb_lt in Hc. fold m in Hc. split; [lia |].
    rewrite (read_at start) by (unfold m, Jitfix.m in *; lia). simpl.
    rewrite (read_at end_ (i s1)) by (unfold m, Jitfix.m in *; lia).
    simpl. destruct (Qlt_bool _ _) eqn:E.
    + rewrite Nat.add_sub.
      rewrite !(read_at end_) by (unfold m, Jitfix.m in *; lia).
      simpl. eexists _, _. split; [reflexivity |]. simpl.
      repeat split; try assumption; try lia.
      * rewrite Hw, (flag_if_again _ true).
        replace (i s1 + 1 =? i s)%nat with false
          by (symmetry; apply Nat.eqb_neq; lia).
        by rewrite orb_true_r.
      * intros k Hk. destruct (decide (k = i s1)) as [-> |].
        -- by apply Qlt_bool_iff.
        -- apply Hov. lia.
      * replace (i s1 + 1 =? i s)%nat with false
          by (symmetry; apply Nat.eqb_neq; lia).
        by rewrite Nat.add_sub.
    + eexists _, _. split; [reflexivity |].
      repeat split; try assumption.
      intros _. by apply Qlt_bool_false.
  - repeat split; try lia; by rewrite Nat.eqb_refl.
  - subst m. lia.
Qed.

Lemma shrink_spec (s : state) :
  (i s < m)%nat ->
  shrink start s =
    Ok (if touches start (newend s) (i s)
        then set_newend (fsub (newend s) epsilon) (warn 0 s) else s).
Proof.
  intros Hi. unfold shrink, touches. fold (Jitfix.m start). fold m.
  destruct (i s <? m - 1)%nat eqn:E; [| reflexivity].
  apply Nat.ltb_lt in E.
  rewrite read_at by (unfold m, Jitfix.m in *; lia).
  simpl. by destruct (Qeq_bool _ _).
Qed.

Lemma emit_spec (s : state) :
  (ct s < length (data s))%nat ->
  emit s =
    Ok (set_i (i s + 1) (set_ct (ct s + 1)
          (set_data (<[ct s:=(newstart s, newend s)]> (data s)) s))).
Proof.
  intros Hct. unfold emit, write_col0, write_col1.
  destruct (lookup_lt_is_Some_2 _ _ Hct) as [row Hrow].
  rewrite Hrow. simpl.
  rewrite list_lookup_insert_eq by exact Hct. simpl.
  by rewrite list_insert_insert_eq.
Qed.

(** One iteration of the outer loop, as a relation between the state
    before and the state after: [ia] is where the zero-duration skip
    stops, [ib] where the inverted skip stops, [ic] where the merge
    stops. *)
Lemma body_spec (s : state) :
  (i s < m)%nat -> (ct s < length (data s))%nat ->
  exists c s' ia ib,
    body start end_ s = Ok (c, s') /\
    (i s <= ia)%nat /\ (ia <= ib)%nat /\ (ib <= m)%nat /\
    (forall k, (i s <= k < ia)%nat -> (at_ end_ k == at_ start k)%Q) /\
    (forall k, (ia <= k < ib)%nat -> (at_ end_ k < at_ start k)%Q) /\
    let w := flag_if (negb (ib =? ia)) 1
               (flag_if (negb (ia =? i s)) 3 (to_warn s)) in
    ((c = Break /\ ib = m /\ i s' = m /\ ct s' = ct s /\
      data s' = data s /\ to_warn s' = w) \/
     (c = Continue /\ (ib < m)%nat /\
      ~ (at_ end_ ia == at_ start ia)%Q /\
      (at_ start ib <= at_ end_ ib)%Q /\
      exists ic, (ib <= ic)%nat /\ (ic < m)%nat /\
        (forall k, (ib <= k < ic)%nat -> (at_ start (k + 1) < at_ end_ k)%Q) /\
        ((ic + 1 < m)%nat -> (at_ end_ ic <= at_ start (ic + 1))%Q) /\
        i s' = (ic + 1)%nat /\ ct s' = (ct s + 1)%nat /\
        data s' = <[ct s:=(at_ start ib, emitted_end start end_ ib ic)]> (data s) /\
        to_warn s' = flag_if (touches start (merged_end end_ ib ic) ic) 0
                       (flag_if (negb (ic =? ib)) 2 w))).
Proof.
  intros Hi Hct. unfold body.
  rewrite (read_at start), (read_at end_) by (unfold m, Jitfix.m in *; lia).
  simpl.
  destruct (skip_empty_spec (set_newend (at_ end_ (i s))
              (set_newstart (at_ start (i s)) s)))
    as (s1 & -> & Hct1 & Hd1 & Hle1 & Hmax1 & Hw1 & Hsk1 & Hcase1).
  simpl in Hct1, Hd1, Hle1, Hmax1, Hw1, Hsk1, Hcase1. simpl.
  destruct (skip_inverted_spec s1)
    as (s2 & -> & Hct2 & Hd2 & Hle2 & Hmax2 & Hw2 & Hsk2 & Hcase2).
  simpl. fold m.
  destruct (m <=? i s2)%nat eqn:Hm.
  - apply Nat.leb_le in Hm.
    exists Break, s2, (i s1), (i s2).
    split; [reflexivity |]. repeat split; try assumption; try lia.
    left. repeat split; try lia; try congruence.
  - apply Nat.leb_gt in Hm.
    destruct (merge_spec s2 Hm)
      as (s3 & -> & Hct3 & Hd3 & Hns3 & Hle3 & Hlt3 & Hw3 & Hov3 & Hstop3 & Hne3).
    simpl. rewrite (shrink_spec s3 Hlt3). simpl.
    rewrite emit_spec.
    2:{ destruct (touches _ _ _); simpl; congruence. }
    simpl.
    destruct Hcase2 as [(_ & Hpos2 & Hns2 & Hne2) | (Hge2 & _)]; [| lia].
    destruct Hcase1 as [(_ & Hnz1 & _) | (Hge1 & _)]; [| lia].
    eexists Continue, _, (i s1), (i s2).
    split; [reflexivity |]. repeat split; try assumption; try lia.
    right. repeat split; try assumption.
    exists (i s3). repeat split; try assumption.
    + by destruct (touches _ _ _).
    + destruct (touches _ _ _); simpl; congruence.
    + assert (Hme : newend s3 = merged_end end_ (i s2) (i s3)).
      { unfold merged_end. rewrite Hne3, Hne2. reflexivity. }
      unfold emitted_end. rewrite <- Hme.
      destruct (touches _ _ _); simpl; congruence.
    + assert (Hme : newend s3 = merged_end end_ (i s2) (i s3)).
      { unfold merged_end. rewrite Hne3, Hne2. reflexivity. }
      rewrite <- Hme.
      destruct (touches _ _ _); simpl; congruence.
Qed.

Lemma body_base (s : state) :
  base_inv start s -> (i s < m)%nat ->
  exists c s', body start end_ s = Ok (c, s') /\ base_inv start s' /\
    (i s < i s')%nat.
Proof.
  intros (Hd & Hct & Him) Hi. fold m in Hd, Him.
  destruct (body_spec s Hi ltac:(lia))
    as (c & s' & ia & ib & Hb & H1 & H2 & H3 & _ & _ & Hcase).
  exists c, s'. split; [exact Hb |].
  destruct Hcase as [(_ & _ & Hi' & Hct' & Hd' & _) |
    (_ & _ & _ & _ & ic & Hic & Hic' & _ & _ & Hi' & Hct' & Hd' & _)].
  - unfold base_inv. fold m. rewrite Hd', Hct', Hi'. repeat split; lia.
  - unfold base_inv. fold m. rewrite Hd', Hct', Hi', length_insert.
    repeat split; lia.
Qed.

(** The outer loop terminates without error, and every property kept by
    the iterations holds of its final state. *)
Lemma loop_total (P : state -> Prop) :
  P (init start) ->
  (forall s c s', base_inv start s -> (i s < m)%nat -> P s ->
     body start end_ s = Ok (c, s') -> P s') ->
  exists s, loop start end_ = Ok s /\ P s /\ base_inv start s /\ i s = m.
Proof.
  intros Hinit Hstep. unfold loop.
  apply (while_total (fun s => P s /\ base_inv start s)
           _ (fun s => m - i s)%nat).
  - intros s (HP & HB) Hc. apply Nat.ltb_ge in Hc. fold m in Hc.
    split; [exact HP | split; [exact HB |]].
    destruct HB as (_ & _ & Hle). fold m in Hle. lia.
  - intros s (HP & HB) Hc. apply Nat.ltb_lt in Hc. fold m in Hc.
    split; [lia |].
    destruct (body_base s HB Hc) as (c & s' & Hb & HB' & Hlt).
    exists c, s'. split; [exact Hb |].
    pose proof (Hstep s c s' HB Hc HP Hb) as HP'.
    destruct c.
    + split; [split; assumption | lia].
    + destruct (body_spec s Hc
                  ltac:(destruct HB as (Hd & ? & ?); fold m in Hd; lia))
        as (c2 & s2 & ia & ib & Hb2 & _ & _ & _ & _ & _ & Hcase).
      rewrite Hb in Hb2. injection Hb2 as <- <-.
      destruct Hcase as [(_ & _ & Hi' & _) | (Hcont & _)]; [| discriminate].
      split; [exact HP' | split; [exact HB' | exact Hi']].
  - split; [exact Hinit |]. unfold base_inv, init. simpl.
    rewrite length_replicate. fold m. repeat split; lia.
  - unfold init, m. simpl. lia.
Qed.

End Loops.

(** ** Results on [_jitfix_iset] *)

Lemma at_elem_of (a : list Q) (k : nat) : (k < length a)%nat -> at_ a k ∈ a.
Proof.
  intros H. unfold at_.
  destruct (lookup_lt_is_Some_2 a k H) as [x Hx]. rewrite Hx. simpl.
  by eapply list_elem_of_lookup_2.
Qed.

Lemma take_emit {A} (d : list A) (n : nat) (x : A) :
  (n < length d)%nat -> take (n + 1) (<[n:=x]> d) = take n d ++ [x].
Proof.
  intros H. rewrite Nat.add_1_r.
  rewrite (take_S_r _ _ x) by (by apply list_lookup_insert_eq).
  by rewrite take_insert_ge by lia.
Qed.

(** C9. For an input of length [m] the normalizer runs to completion
    without any out-of-range access: the buffer keeps its allocated length
    [m], the number [ct] of emitted rows is at most [m], and the result is
    the buffer truncated to [ct] rows.  On an empty [start] the result is
    the empty interval array with the four flags false. *)
Theorem jitfix_emits_at_most_m (start end_ : list Q)
    (Hlen : length end_ = length start) :
  (exists s, loop start end_ = Ok s /\
     length (data s) = length start /\
     (ct s <= length start)%nat /\
     _jitfix_iset start end_ = Ok (take (ct s) (data s), to_warn s) /\
     length (take (ct s) (data s)) = ct s) /\
  (forall e : list Q,
     _jitfix_iset [] e = Ok ([], [false; false; false; false])).
Proof.
  split; [| reflexivity].
  destruct (loop_total start end_ Hlen (fun _ => True) I)
    as (s & Hs & _ & (Hd & Hct & Hi) & Him); [done |].
  exists s. unfold _jitfix_iset. rewrite Hs. simpl.
  unfold Jitfix.m in *. repeat split; try lia.
  rewrite length_take. lia.
Qed.

Lemma jitfix_emits_at_most_m_witness :
  exists s, loop [0; 1; 5]%Q [2; 3; 6]%Q = Ok s /\
    length (data s) = 3%nat /\ (ct s <= 3)%nat /\
    _jitfix_iset [0; 1; 5]%Q [2; 3; 6]%Q = Ok (take (ct s) (data s), to_warn s) /\
    length (take (ct s) (data s)) = ct s.
Proof.
  exact (proj1 (jitfix_emits_at_most_m [0; 1; 5]%Q [2; 3; 6]%Q eq_refl)).
Defined.

(** C10. Every emitted interval starts at one of the input start values:
    normalization only ever changes ends. *)
Theorem jitfix_starts_are_input_starts (start end_ : list Q)
    (Hlen : length end_ = length start) :
  exists d w, _jitfix_iset start end_ = Ok (d, w) /\
    Forall (fun row : Q * Q => row.1 ∈ start) d.
Proof.
  destruct (loop_total start end_ Hlen
    (fun s => Forall (fun row : Q * Q => row.1 ∈ start) (take (ct s) (data s))))
    as (s & Hs & HP & _ & _).
  - simpl. constructor.
  - intros s c s' (Hd & Hct & Hi) Hlt HP Hb.
    destruct (body_spec start end_ Hlen s Hlt ltac:(unfold Jitfix.m in *; lia))
      as (c2 & s2 & ia & ib & Hb2 & _ & _ & _ & _ & _ & Hcase).
    rewrite Hb in Hb2. injection Hb2 as <- <-.
    destruct Hcase as [(_ & _ & _ & Hct' & Hd' & _) |
      (_ & Hib & _ & _ & ic & _ & _ & _ & _ & _ & Hct' & Hd' & _)].
    + by rewrite Hct', Hd'.
    + rewrite Hct', Hd', take_emit by (unfold Jitfix.m in *; lia).
      apply Forall_app. split; [exact HP |].
      constructor; [| constructor]. simpl. by apply at_elem_of.
  - exists (take (ct s) (data s)), (to_warn s).
    unfold _jitfix_iset. rewrite Hs. auto.
Qed.

Lemma jitfix_starts_are_input_starts_witness :
  exists d w, _jitfix_iset [0; 1; 5]%Q [2; 3; 6]%Q = Ok (d, w) /\
    Forall (fun row : Q * Q => row.1 ∈ [0; 1; 5]%Q) d.
Proof.
  exact (jitfix_starts_are_input_starts [0; 1; 5]%Q [2; 3; 6]%Q eq_refl).
Defined.

Lemma lookup_at (a : list Q) (k : nat) :
  (k < length a)%nat -> a !! k = Some (at_ a k).
Proof.
  intros H. unfold at_.
  destruct (lookup_lt_is_Some_2 a k H) as [x Hx]. by rewrite Hx.
Qed.

Lemma ascending_head (x : Q) (t : list Q) :
  ascending (x :: t) -> forall k y, t !! k = Some y -> (x <= y)%Q.
Proof.
  revert x. induction t as [| z t IH]; intros x Ha k y Hk.
  - by rewrite lookup_nil in Hk.
  - destruct Ha as [Hxz Ht]. destruct k as [| k]; simpl in Hk.
    + injection Hk as <-. exact Hxz.
    + pose proof (IH z Ht k y Hk). lra.
Qed.

Lemma ascending_tail (x : Q) (t : list Q) : ascending (x :: t) -> ascending t.
Proof. destruct t; simpl; tauto. Qed.

Lemma ascending_lookup (a : list Q) :
  ascending a ->
  forall j k x y, (j <= k)%nat -> a !! j = Some x -> a !! k = Some y -> (x <= y)%Q.
Proof.
  induction a as [| z t IH]; intros Ha j k x y Hjk Hj Hk.
  - by rewrite lookup_nil in Hj.
  - destruct j as [| j], k as [| k]; simpl in Hj, Hk; try lia.
    + injection Hj as <-. injection Hk as <-. lra.
    + injection Hj as <-. by apply (ascending_head z t Ha k).
    + apply (IH (ascending_tail z t Ha) j k); [lia | done | done].
Qed.

Lemma ascending_at (a : list Q) (j k : nat) :
  ascending a -> (j <= k)%nat -> (k < length a)%nat -> (at_ a j <= at_ a k)%Q.
Proof.
  intros Ha Hjk Hk.
  apply (ascending_lookup a Ha j k); [exact Hjk | |]; apply lookup_at; lia.
Qed.

Lemma strictly_ordered_nil : strictly_ordered [].
Proof. split; intros k r; [| intros r']; rewrite lookup_nil; discriminate. Qed.

Lemma strictly_ordered_snoc (d : list (Q * Q)) (x : Q * Q) :
  strictly_ordered d -> (x.1 < x.2)%Q ->
  (forall r, last d = Some r -> (r.2 < x.1)%Q) ->
  strictly_ordered (d ++ [x]).
Proof.
  intros [Hrow Hadj] Hx Hlink. split.
  - intros k r Hk. apply lookup_app_Some in Hk as [Hk | [_ Hk]].
    + by apply (Hrow k).
    + apply list_lookup_singleton_Some in Hk as [_ <-]. exact Hx.
  - intros k r r' Hk Hk'.
    apply lookup_app_Some in Hk' as [Hk' | [Hge Hk']].
    + apply (Hadj k); [| exact Hk'].
      rewrite lookup_app_l in Hk; [exact Hk |].
      apply lookup_lt_Some in Hk'. lia.
    + apply list_lookup_singleton_Some in Hk' as [Hz <-].
      assert (S k = length d) as Hlast by lia.
      rewrite lookup_app_l in Hk by lia.
      apply Hlink. rewrite last_lookup, <- Hlast. exact Hk.
Qed.

Lemma flag_if_lookup (b : bool) (k j : nat) (w : list bool) :
  flag_if b k w !! j = Some true ->
  w !! j = Some true \/ (b = true /\ j = k).
Proof.
  unfold flag_if. destruct b; [| by left].
  destruct (decide (j = k)) as [-> | Hne]; [by right |].
  rewrite list_lookup_insert_ne by done. by left.
Qed.

Lemma length_flag_if (b : bool) (k : nat) (w : list bool) :
  length (flag_if b k w) = length w.
Proof. unfold flag_if. destruct b; [apply length_insert | reflexivity]. Qed.

Lemma flag_if_all_false (b : bool) (k : nat) (w : list bool) :
  (k < length w)%nat -> flag_if b k w = replicate (length w) false ->
  b = false /\ w = replicate (length w) false.
Proof.
  intros Hk H. destruct b; [| by split].
  exfalso. simpl in H.
  assert (<[k:=true]> w !! k = Some true) as Hl
    by (by apply list_lookup_insert_eq).
  rewrite H, lookup_replicate_2 in Hl by lia. discriminate.
Qed.

Lemma merged_end_elem (end_ : list Q) (i1 i2 : nat) :
  (i1 <= i2)%nat -> (i2 < length end_)%nat ->
  exists j, (i2 - 1 <= j)%nat /\ (j <= i2)%nat /\
    end_ !! j = Some (merged_end end_ i1 i2).
Proof.
  intros H12 H2. unfold merged_end.
  destruct (i2 =? i1)%nat eqn:E.
  - apply Nat.eqb_eq in E. subst i2. exists i1.
    repeat split; try lia. by apply lookup_at.
  - apply Nat.eqb_neq in E.
    destruct (pymax_cases (at_ end_ (i2 - 1)) (at_ end_ i2)) as [[-> _] | [-> _]].
    + exists (i2 - 1)%nat. repeat split; try lia. apply lookup_at. lia.
    + exists i2. repeat split; try lia. by apply lookup_at.
Qed.

Section Ordered.
Variables start end_ : list Q.
Hypothesis Hlen : length end_ = length start.
Hypothesis Hstart : ascending start.
Hypothesis Hnest : no_nested_overlap start end_ = true.
Hypothesis Hempty : no_empty_after_inverted start end_ = true.
Hypothesis Hdecr : decrement_effective start end_ = true.

Let m := Jitfix.m start.

Lemma nest_at (k : nat) :
  (k + 1 < m)%nat -> (at_ start (k + 1) < at_ end_ k)%Q ->
  (at_ end_ k <= at_ end_ (k + 1))%Q.
Proof.
  intros Hk Hov. pose proof Hnest as H. unfold no_nested_overlap in H.
  rewrite forallb_forall in H.
  specialize (H k ltac:(apply in_seq; unfold m, Jitfix.m in *; lia)).
  apply Qlt_bool_iff in Hov. rewrite Hov in H. cbn [implb] in H.
  by apply Qle_bool_iff.
Qed.

Lemma empty_at (k : nat) :
  (k + 1 < m)%nat -> (at_ end_ k < at_ start k)%Q ->
  ~ (at_ end_ (k + 1) == at_ start (k + 1))%Q.
Proof.
  intros Hk Hinv Heq. pose proof Hempty as H.
  unfold no_empty_after_inverted in H. rewrite forallb_forall in H.
  specialize (H k ltac:(apply in_seq; unfold m, Jitfix.m in *; lia)).
  apply Qlt_bool_iff in Hinv. apply Qeq_bool_iff in Heq.
  rewrite Hinv, Heq in H. discriminate H.
Qed.

Lemma decr_at (e b : Q) :
  e ∈ end_ -> b ∈ start -> (e == b)%Q ->
  (fsub e epsilon < e)%Q /\
  forall b', b' ∈ start -> (b' < e)%Q -> (b' < fsub e epsilon)%Q.
Proof.
  intros He Hb Heq. pose proof Hdecr as H. unfold decrement_effective in H.
  rewrite forallb_forall in H.
  specialize (H e ltac:(by apply list_elem_of_In)).
  assert (existsb (fun b => Qeq_bool e b) start = true) as Hex.
  { apply existsb_exists. exists b.
    split; [by apply list_elem_of_In | by apply Qeq_bool_iff]. }
  rewrite Hex in H. cbn [implb] in H.
  apply andb_true_iff in H as [H1 H2].
  split; [by apply Qlt_bool_iff |].
  intros b' Hb' Hlt. rewrite forallb_forall in H2.
  specialize (H2 b' ltac:(by apply list_elem_of_In)).
  apply Qlt_bool_iff in Hlt. rewrite Hlt in H2. cbn [implb] in H2.
  by apply Qlt_bool_iff.
Qed.

(** Along a run of overlapping intervals the ends do not decrease, so the
    end kept by the merge loop is the end of the last interval of the
    run. *)
Lemma run_ends (ib ic : nat) :
  (ib <= ic)%nat -> (ic < m)%nat ->
  (forall k, (ib <= k < ic)%nat -> (at_ start (k + 1) < at_ end_ k)%Q) ->
  (at_ end_ ib <= at_ end_ ic)%Q.
Proof.
  intros Hle Hlt Hov. induction ic as [| ic IH].
  - replace ib with 0%nat by lia. lra.
  - destruct (decide (ib = S ic)) as [-> | Hne]; [lra |].
    assert (at_ end_ ib <= at_ end_ ic)%Q as H1
      by (apply IH; [lia | lia | intros k Hk; apply Hov; lia]).
    pose proof (nest_at ic ltac:(lia) ltac:(apply Hov; lia)) as Hn.
    rewrite Nat.add_1_r in Hn. lra.
Qed.

Lemma merged_end_run (ib ic : nat) :
  (ib <= ic)%nat -> (ic < m)%nat ->
  (forall k, (ib <= k < ic)%nat -> (at_ start (k + 1) < at_ end_ k)%Q) ->
  (merged_end end_ ib ic == at_ end_ ic)%Q.
Proof.
  intros Hle Hlt Hov. unfold merged_end.
  destruct (ic =? ib)%nat eqn:E.
  - apply Nat.eqb_eq in E. subst. reflexivity.
  - apply Nat.eqb_neq in E.
    pose proof (nest_at (ic - 1) ltac:(lia) ltac:(apply Hov; lia)) as Hn.
    replace (ic - 1 + 1)%nat with ic in Hn by lia.
    destruct (pymax_cases (at_ end_ (ic - 1)) (at_ end_ ic))
      as [[-> ?] | [-> ?]]; lra.
Qed.

Lemma loop_ordered :
  exists s, loop start end_ = Ok s /\ strictly_ordered (take (ct s) (data s)).
Proof using Hlen Hstart Hnest Hempty Hdecr.
  destruct (loop_total start end_ Hlen
    (fun s => strictly_ordered (take (ct s) (data s)) /\
       ((i s < m)%nat -> forall r, last (take (ct s) (data s)) = Some r ->
          (r.2 < at_ start (i s))%Q)))
    as (s & Hs & [HP _] & _ & _).
  - simpl. split; [apply strictly_ordered_nil | discriminate].
  - intros s c s' (Hd & Hct & Hi) Hlt [Hord Hlink] Hb.
    fold m in Hd, Hi, Hlt.
    assert (ct s < length (data s))%nat as Hct' by lia.
    destruct (body_spec start end_ Hlen s Hlt Hct')
      as (c2 & s2 & ia & ib & Hb2 & H1 & H2 & H3 & Hz & Hinv & Hcase).
    rewrite Hb in Hb2. injection Hb2 as <- <-. fold m in H3.
    destruct Hcase as [(_ & Hbm & Hi' & Hc' & Hd' & _) |
      (_ & Hib & Hnz & Hpos & ic & Hic & Hicm & Hov & Hstop & Hi' & Hc' & Hd' & _)].
    + rewrite Hc', Hd', Hi'. split; [exact Hord | fold m; lia].
    + fold m in Hib, Hicm, Hstop.
      assert (at_ start ib < at_ end_ ib)%Q as Hstrict.
      { destruct (decide (ib = ia)) as [-> | Hne].
        - destruct (Qlt_le_dec (at_ start ia) (at_ end_ ia)) as [? | Hge];
            [done |].
          exfalso. apply Hnz. lra.
        - pose proof (Hinv (ib - 1)%nat ltac:(lia)) as Hprev.
          pose proof (empty_at (ib - 1) ltac:(lia) Hprev) as Hne'.
          replace (ib - 1 + 1)%nat with ib in Hne' by lia.
          destruct (Qlt_le_dec (at_ start ib) (at_ end_ ib)) as [? | Hge];
            [done |].
          exfalso. apply Hne'. lra. }
      pose proof (merged_end_run ib ic Hic Hicm Hov) as Hme.
      pose proof (run_ends ib ic Hic Hicm Hov) as Hrun.
      assert (merged_end end_ ib ic ∈ end_) as Hin.
      { destruct (merged_end_elem end_ ib ic Hic
                    ltac:(unfold m, Jitfix.m in *; lia)) as (j & _ & _ & Hj).
        by eapply list_elem_of_lookup_2. }
      assert (at_ start ib ∈ start) as Hbin
        by (apply at_elem_of; unfold m, Jitfix.m in *; lia).
      rewrite Hc', Hd', Hi', take_emit by exact Hct'. split.
      * apply strictly_ordered_snoc; [exact Hord | |].
        -- simpl. unfold emitted_end.
           destruct (touches _ _ _) eqn:Ht; [| lra].
           unfold touches in Ht. apply andb_true_iff in Ht as [Ht1 Ht2].
           apply Nat.ltb_lt in Ht1. apply Qeq_bool_iff in Ht2.
           destruct (decr_at _ (at_ start (ic + 1)) Hin
                       ltac:(apply at_elem_of; lia) Ht2) as [_ Hd2].
           apply Hd2; [exact Hbin | lra].
        -- intros r Hr. simpl.
           pose proof (Hlink Hlt r Hr) as Hl.
           pose proof (ascending_at start (i s) ib Hstart ltac:(lia)
                         ltac:(unfold m, Jitfix.m in *; lia)) as Ha.
           lra.
      * intros Hnm r. rewrite last_snoc. intros [= <-]. simpl.
        pose proof (Hstop ltac:(lia)) as Hs'.
        unfold emitted_end, touches. fold (Jitfix.m start). fold m.
        replace (ic <? m - 1)%nat with true
          by (symmetry; apply Nat.ltb_lt; lia).
        simpl andb. destruct (Qeq_bool _ _) eqn:E.
        -- apply Qeq_bool_iff in E.
           destruct (decr_at _ (at_ start (ic + 1)) Hin
                       ltac:(apply at_elem_of; unfold m, Jitfix.m in *; lia) E)
             as [Hd1 _].
           lra.
        -- apply Qeq_bool_false in E.
           destruct (Qlt_le_dec (merged_end end_ ib ic) (at_ start (ic + 1)))
             as [? | Hge]; [done |].
           exfalso. apply E. lra.
  - by exists s.
Qed.

End Ordered.

(** C1 (as amended). When [start] is sorted ascending, no interval that
    overlaps its predecessor ends before it, no interval without duration
    directly follows an inverted one, and the decrement takes effect at
    the scale of the data, the interval array returned by the normalizer
    is strictly ordered: [start[k] < end[k]] in every row and
    [end[k] < start[k+1]] between adjacent rows. *)
Theorem jitfix_strictly_ordered (start end_ : list Q)
    (Hlen : length end_ = length start)
    (Hstart : ascending start)
    (Hnest : no_nested_overlap start end_ = true)
    (Hempty : no_empty_after_inverted start end_ = true)
    (Hdecr : decrement_effective start end_ = true) :
  exists d w, _jitfix_iset start end_ = Ok (d, w) /\ strictly_ordered d.
Proof.
  destruct (loop_ordered start end_ Hlen Hstart Hnest Hempty Hdecr)
    as (s & Hs & Hord).
  exists (take (ct s) (data s)), (to_warn s).
  unfold _jitfix_iset. rewrite Hs. auto.
Qed.

Lemma jitfix_strictly_ordered_witness :
  exists d w, _jitfix_iset [0; 0; 1]%Q [0; 1; 2]%Q = Ok (d, w) /\
    strictly_ordered d.
Proof.
  apply (jitfix_strictly_ordered [0; 0; 1]%Q [0; 1; 2]%Q).
  - reflexivity.
  - simpl. lra.
  - vm_compute. reflexivity.
  - vm_compute. reflexivity.
  - vm_compute. reflexivity.
Defined.

(** C1 (as stated) fails on sorted starts.  The merge loop compares the
    next start with [end[i]] and not with the accumulated end, so
    [(0,10), (1,2), (5,6)] yields the overlapping rows [(0,10), (5,6)]; a
    zero-duration interval that follows an inverted one is emitted as it
    is; an interval shorter than the decrement is turned over by the
    boundary shrink; and at [2^35] the decrement is absorbed by the
    rounding, so the two touching intervals stay touching. *)
Lemma jitfix_not_always_ordered :
  (ascending [0; 1; 5]%Q /\
   _jitfix_iset [0; 1; 5]%Q [10; 2; 6]%Q
     = Ok ([(0, 10); (5, 6)]%Q, [false; false; true; false]) /\
   ~ strictly_ordered [(0, 10); (5, 6)]%Q) /\
  (ascending [0; 1]%Q /\
   _jitfix_iset [0; 1]%Q [-1; 1]%Q
     = Ok ([(1, 1)]%Q, [false; true; false; false]) /\
   ~ strictly_ordered [(1, 1)]%Q) /\
  (ascending [0; 1 # 2097152]%Q /\
   _jitfix_iset [0; 1 # 2097152]%Q [1 # 2097152; 1]%Q
     = Ok ([(0, fsub (1 # 2097152) epsilon); (1 # 2097152, 1)]%Q,
           [true; false; false; false]) /\
   ~ strictly_ordered [(0, fsub (1 # 2097152) epsilon); (1 # 2097152, 1)]%Q) /\
  (ascending [0; 34359738368]%Q /\
   _jitfix_iset [0; 34359738368]%Q [34359738368; 68719476736]%Q
     = Ok ([(0, 34359738368); (34359738368, 68719476736)]%Q,
           [true; false; false; false]) /\
   ~ strictly_ordered [(0, 34359738368); (34359738368, 68719476736)]%Q).
Proof.
  split; [| split; [| split]]; (split; [simpl; lra | split]);
    try (vm_compute; reflexivity).
  - intros [_ H]. specialize (H 0%nat _ _ eq_refl eq_refl). simpl in H. lra.
  - intros [H _]. specialize (H 0%nat _ eq_refl). simpl in H. lra.
  - intros [H _]. specialize (H 0%nat _ eq_refl). simpl in H.
    vm_compute in H. discriminate H.
  - intros [_ H]. specialize (H 0%nat _ _ eq_refl eq_refl). simpl in H. lra.
Qed.

(** ** Idempotence *)

Lemma at_fst (d : list (Q * Q)) (k : nat) (r : Q * Q) :
  d !! k = Some r -> at_ (d.*1) k = r.1.
Proof. intros H. unfold at_. by rewrite list_lookup_fmap, H. Qed.

Lemma at_snd (d : list (Q * Q)) (k : nat) (r : Q * Q) :
  d !! k = Some r -> at_ (d.*2) k = r.2.
Proof. intros H. unfold at_. by rewrite list_lookup_fmap, H. Qed.

(** A strictly ordered interval array is left as it is, and no flag is
    raised. *)
Lemma jitfix_fixed_point (d : list (Q * Q)) :
  strictly_ordered d ->
  _jitfix_iset (d.*1) (d.*2) = Ok (d, [false; false; false; false]).
Proof.
  intros [Hrow Hadj].
  assert (length (d.*2) = length (d.*1)) as Hlen
    by (by rewrite !length_fmap).
  assert (Jitfix.m (d.*1) = length d) as Hm
    by (unfold Jitfix.m; by rewrite length_fmap).
  destruct (loop_total (d.*1) (d.*2) Hlen
    (fun s => ct s = i s /\ take (i s) (data s) = take (i s) d /\
              to_warn s = replicate 4 false))
    as (s & Hs & (Hct & Htake & Hw) & (Hd & _ & _) & Hi).
  - simpl. auto.
  - intros s c s' (Hd & _ & _) Hlt (Hct & Htake & Hw) Hb.
    rewrite Hm in Hlt, Hd.
    destruct (lookup_lt_is_Some_2 d (i s) Hlt) as [r Hr].
    destruct (body_spec (d.*1) (d.*2) Hlen s ltac:(lia) ltac:(lia))
      as (c2 & s2 & ia & ib & Hb2 & H1 & H2 & H3 & Hz & Hinv & Hcase).
    rewrite Hb in Hb2. injection Hb2 as <- <-.
    pose proof (Hrow _ _ Hr) as Hr12.
    assert (ia = i s) as ->.
    { destruct (decide (ia = i s)) as [| Hne]; [done |].
      pose proof (Hz (i s) ltac:(lia)) as Hz'.
      rewrite (at_fst _ _ _ Hr), (at_snd _ _ _ Hr) in Hz'. lra. }
    assert (ib = i s) as ->.
    { destruct (decide (ib = i s)) as [| Hne]; [done |].
      pose proof (Hinv (i s) ltac:(lia)) as Hi'.
      rewrite (at_fst _ _ _ Hr), (at_snd _ _ _ Hr) in Hi'. lra. }
    destruct Hcase as [(_ & Hbm & _) |
      (_ & _ & _ & _ & ic & Hic & Hicm & Hov & _ & Hi' & Hct' & Hd' & Hw')];
      [lia |].
    rewrite Hm in Hicm.
    assert (ic = i s) as ->.
    { destruct (decide (ic = i s)) as [| Hne]; [done |].
      destruct (lookup_lt_is_Some_2 d (S (i s)) ltac:(lia)) as [r' Hr'].
      pose proof (Hov (i s) ltac:(lia)) as Ho.
      rewrite Nat.add_1_r, (at_fst _ _ _ Hr'), (at_snd _ _ _ Hr) in Ho.
      pose proof (Hadj _ _ _ Hr Hr'). lra. }
    assert (merged_end (d.*2) (i s) (i s) = r.2) as Hme.
    { unfold merged_end. by rewrite Nat.eqb_refl, (at_snd _ _ _ Hr). }
    assert (touches (d.*1) r.2 (i s) = false) as Ht.
    { unfold touches. destruct (i s <? length (d.*1) - 1)%nat eqn:E;
        [| reflexivity].
      apply Nat.ltb_lt in E. rewrite length_fmap in E. simpl.
      destruct (lookup_lt_is_Some_2 d (S (i s)) ltac:(lia)) as [r' Hr'].
      rewrite Nat.add_1_r, (at_fst _ _ _ Hr').
      apply Qeq_bool_false. pose proof (Hadj _ _ _ Hr Hr'). lra. }
    rewrite Hme, Ht, !Nat.eqb_refl in Hw'. simpl in Hw'.
    unfold emitted_end in Hd'. rewrite Hme, Ht, (at_fst _ _ _ Hr) in Hd'.
    rewrite Hi', Hct', Hd', Hw', Hct.
    repeat split; try assumption.
    rewrite take_emit by lia.
    rewrite Nat.add_1_r, (take_S_r d (i s) r Hr), Htake.
    by destruct r.
  - unfold _jitfix_iset. rewrite Hs. simpl.
    rewrite Hct, Hw, Htake, Hi, Hm, firstn_all. reflexivity.
Qed.

(** C5 (as amended). On the inputs of the amended C1 ([start] sorted
    ascending, no overlapping interval ending before its predecessor, no
    interval without duration directly after an inverted one, decrement
    effective at the scale of the data), running the normalizer again on
    the start and end columns of its output returns that output unchanged,
    with the four flags false; and so does running it on the columns of
    any strictly ordered interval array. *)
Theorem jitfix_idempotent (start end_ : list Q)
    (Hlen : length end_ = length start)
    (Hstart : ascending start)
    (Hnest : no_nested_overlap start end_ = true)
    (Hempty : no_empty_after_inverted start end_ = true)
    (Hdecr : decrement_effective start end_ = true) :
  (exists d w, _jitfix_iset start end_ = Ok (d, w) /\
     _jitfix_iset (d.*1) (d.*2) = Ok (d, [false; false; false; false])) /\
  (forall d : list (Q * Q), strictly_ordered d ->
     _jitfix_iset (d.*1) (d.*2) = Ok (d, [false; false; false; false])).
Proof.
  split; [| apply jitfix_fixed_point].
  destruct (loop_ordered start end_ Hlen Hstart Hnest Hempty Hdecr)
    as (s & Hs & Hord).
  exists (take (ct s) (data s)), (to_warn s). split.
  - unfold _jitfix_iset. by rewrite Hs.
  - by apply jitfix_fixed_point.
Qed.

Lemma jitfix_idempotent_witness :
  (exists d w, _jitfix_iset [0; 0; 1]%Q [0; 1; 2]%Q = Ok (d, w) /\
     _jitfix_iset (d.*1) (d.*2) = Ok (d, [false; false; false; false])) /\
  (forall d : list (Q * Q), strictly_ordered d ->
     _jitfix_iset (d.*1) (d.*2) = Ok (d, [false; false; false; false])).
Proof.
  apply (jitfix_idempotent [0; 0; 1]%Q [0; 1; 2]%Q).
  - reflexivity.
  - simpl. lra.
  - vm_compute. reflexivity.
  - vm_compute. reflexivity.
  - vm_compute. reflexivity.
Defined.

(** C5 (as stated) fails: the rows [(0,10), (5,6)] returned for
    [(0,10), (1,2), (5,6)] are merged by a second run; the row [(1,1)]
    returned for [(0,-1), (1,1)] is dropped by a second run; so is the
    first row returned for two touching intervals of which the first is
    shorter than the decrement; and at [2^35], where the decrement is
    absorbed, the second run returns the same rows but raises flag 0
    again. *)
Lemma jitfix_not_always_idempotent :
  (_jitfix_iset [0; 1; 5]%Q [10; 2; 6]%Q
     = Ok ([(0, 10); (5, 6)]%Q, [false; false; true; false]) /\
   _jitfix_iset ([(0, 10); (5, 6)]%Q.*1) ([(0, 10); (5, 6)]%Q.*2)
     = Ok ([(0, 10)]%Q, [false; false; true; false])) /\
  (_jitfix_iset [0; 1]%Q [-1; 1]%Q
     = Ok ([(1, 1)]%Q, [false; true; false; false]) /\
   _jitfix_iset ([(1, 1)]%Q.*1) ([(1, 1)]%Q.*2)
     = Ok ([], [false; false; false; true])) /\
  (_jitfix_iset [0; 1 # 2097152]%Q [1 # 2097152; 1]%Q
     = Ok ([(0, fsub (1 # 2097152) epsilon); (1 # 2097152, 1)]%Q,
           [true; false; false; false]) /\
   _jitfix_iset ([(0, fsub (1 # 2097152) epsilon); (1 # 2097152, 1)]%Q.*1)
                ([(0, fsub (1 # 2097152) epsilon); (1 # 2097152, 1)]%Q.*2)
     = Ok ([(1 # 2097152, 1)]%Q, [false; true; false; false])) /\
  (_jitfix_iset [0; 34359738368]%Q [34359738368; 68719476736]%Q
     = Ok ([(0, 34359738368); (34359738368, 68719476736)]%Q,
           [true; false; false; false]) /\
   _jitfix_iset ([(0, 34359738368); (34359738368, 68719476736)]%Q.*1)
                ([(0, 34359738368); (34359738368, 68719476736)]%Q.*2)
     = Ok ([(0, 34359738368); (34359738368, 68719476736)]%Q,
           [true; false; false; false])).
Proof. repeat split; vm_compute; reflexivity. Qed.

(** ** Merging and the boundary shrink *)

(** C4 (the code at the failing input).  The merged end is the larger of
    the last two ends of the run, not of all of them: for
    [(0,10), (1,3), (2,4)] the run is emitted as [(0,4)] although the
    largest end of the run is [10].  The example of the claim, a run of two
    intervals, comes out as stated. *)
Theorem jitfix_merge_keeps_last_two_ends :
  _jitfix_iset [0; 1; 2]%Q [10; 3; 4]%Q
    = Ok ([(0, 4)]%Q, [false; false; true; false]) /\
  pymax 10 (pymax 3 4) = 10%Q /\
  _jitfix_iset [0; 1; 5]%Q [2; 3; 6]%Q
    = Ok ([(0, 3); (5, 6)]%Q, [false; false; true; false]).
Proof. repeat split. Qed.

Lemma flag_if_lookup_ne (b : bool) (k j : nat) (w : list bool) :
  j <> k -> flag_if b k w !! j = w !! j.
Proof.
  intros Hne. unfold flag_if. destruct b; [| reflexivity].
  by apply list_lookup_insert_ne.
Qed.

Lemma flag_if_lookup_eq (b : bool) (k : nat) (w : list bool) (x : bool) :
  w !! k = Some x -> flag_if b k w !! k = Some (x || b).
Proof.
  intros Hk. unfold flag_if. destruct b.
  - rewrite orb_true_r. apply list_lookup_insert_eq.
    by eapply lookup_lt_Some.
  - by rewrite orb_false_r.
Qed.

(** C6 (as amended).  The output of the normalizer, run by run.  Every
    emitted row comes from a run of input positions [ib <= ic]: the
    intervals from [ib] to [ic] overlap one after the other and the merge
    stops at [ic].  The row starts at [start[ib]].  Its end is the end
    [e] kept by the merge, except when [ic] is not the last input position
    and [e == start[ic+1]]: then, and only then, it is the float64 value
    of [e - 1.0e-6].  Flag 0 is raised exactly when this happened for some
    run, and a run that reaches the last input position is never
    decremented.  For [(0,2), (2,4)] the rows are [(0, 2 - 1.0e-6)] in
    float64, which is below 2, and [(2,4)], with flag 0 alone. *)
Theorem jitfix_shrinks_touching_boundary (start end_ : list Q)
    (Hlen : length end_ = length start) :
  (exists runs w,
     _jitfix_iset start end_ = Ok (rows_of start end_ runs, w) /\
     Forall (fun r : nat * nat =>
               (r.1 <= r.2)%nat /\ (r.2 < length start)%nat /\
               (forall k, (r.1 <= k < r.2)%nat ->
                  (at_ start (k + 1) < at_ end_ k)%Q) /\
               ((r.2 + 1 < length start)%nat ->
                  (at_ end_ r.2 <= at_ start (r.2 + 1))%Q) /\
               (r.2 = (length start - 1)%nat ->
                  emitted_end start end_ r.1 r.2 = merged_end end_ r.1 r.2))
            runs /\
     w !! 0%nat
       = Some (existsb (fun r : nat * nat =>
                          touches start (merged_end end_ r.1 r.2) r.2) runs)) /\
  _jitfix_iset [0; 2]%Q [2; 4]%Q
    = Ok ([(0, fsub 2 epsilon); (2, 4)]%Q, [true; false; false; false]) /\
  (fsub 2 epsilon < 2)%Q.
Proof.
  split; [| split; vm_compute; reflexivity].
  set (m := Jitfix.m start).
  destruct (loop_total start end_ Hlen
    (fun s => length (to_warn s) = 4%nat /\
       exists runs,
         take (ct s) (data s) = rows_of start end_ runs /\
         Forall (fun r : nat * nat =>
                   (r.1 <= r.2)%nat /\ (r.2 < length start)%nat /\
                   (forall k, (r.1 <= k < r.2)%nat ->
                      (at_ start (k + 1) < at_ end_ k)%Q) /\
                   ((r.2 + 1 < length start)%nat ->
                      (at_ end_ r.2 <= at_ start (r.2 + 1))%Q) /\
                   (r.2 = (length start - 1)%nat ->
                      emitted_end start end_ r.1 r.2
                        = merged_end end_ r.1 r.2))
                runs /\
         to_warn s !! 0%nat
           = Some (existsb (fun r : nat * nat =>
                              touches start (merged_end end_ r.1 r.2) r.2)
                           runs)))
    as (s & Hs & (_ & runs & Hrows & Hruns & Hflag) & _ & _).
  - split; [reflexivity |]. exists []. repeat split. constructor.
  - intros s c s' (Hd & Hct & Hi) Hlt (Hw & runs & Hrows & Hruns & Hflag) Hb.
    fold m in Hd, Hi, Hlt.
    destruct (body_spec start end_ Hlen s Hlt ltac:(lia))
      as (c2 & s2 & ia & ib & Hb2 & _ & _ & _ & _ & _ & Hcase).
    rewrite Hb in Hb2. injection Hb2 as <- <-.
    destruct Hcase as [(_ & _ & _ & Hct' & Hd' & Hw') |
      (_ & Hib & _ & _ & ic & Hic & Hicm & Hov & Hstop & _ & Hct' & Hd' & Hw')].
    + rewrite Hw', Hct', Hd'. split; [by rewrite !length_flag_if |].
      exists runs. repeat split; try assumption.
      by rewrite !flag_if_lookup_ne by lia.
    + rewrite Hw', Hct', Hd'. split; [by rewrite !length_flag_if |].
      exists (runs ++ [(ib, ic)]). split; [| split].
      * rewrite take_emit by lia. unfold rows_of in *.
        by rewrite map_app, Hrows.
      * apply Forall_app. split; [exact Hruns |].
        constructor; [| constructor]. simpl.
        fold (Jitfix.m start). fold m. repeat split; try assumption.
        intros ->. unfold emitted_end, touches.
        fold (Jitfix.m start). fold m.
        by rewrite Nat.ltb_irrefl.
      * rewrite existsb_app. simpl existsb. rewrite orb_false_r.
        apply flag_if_lookup_eq.
        by rewrite !flag_if_lookup_ne by lia.
  - exists runs, (to_warn s). unfold _jitfix_iset. rewrite Hs. simpl.
    rewrite Hrows. auto.
Qed.

Lemma jitfix_shrinks_touching_boundary_witness :
  (exists runs w,
     _jitfix_iset [0; 1; 3]%Q [2; 3; 4]%Q
       = Ok (rows_of [0; 1; 3]%Q [2; 3; 4]%Q runs, w) /\
     Forall (fun r : nat * nat =>
               (r.1 <= r.2)%nat /\ (r.2 < length [0; 1; 3]%Q)%nat /\
               (forall k, (r.1 <= k < r.2)%nat ->
                  (at_ [0; 1; 3]%Q (k + 1) < at_ [2; 3; 4]%Q k)%Q) /\
               ((r.2 + 1 < length [0; 1; 3]%Q)%nat ->
                  (at_ [2; 3; 4]%Q r.2 <= at_ [0; 1; 3]%Q (r.2 + 1))%Q) /\
               (r.2 = (length [0; 1; 3]%Q - 1)%nat ->
                  emitted_end [0; 1; 3]%Q [2; 3; 4]%Q r.1 r.2
                    = merged_end [2; 3; 4]%Q r.1 r.2))
            runs /\
     w !! 0%nat
       = Some (existsb (fun r : nat * nat =>
                          touches [0; 1; 3]%Q
                            (merged_end [2; 3; 4]%Q r.1 r.2) r.2) runs)) /\
  _jitfix_iset [0; 2]%Q [2; 4]%Q
    = Ok ([(0, fsub 2 epsilon); (2, 4)]%Q, [true; false; false; false]) /\
  (fsub 2 epsilon < 2)%Q.
Proof.
  apply (jitfix_shrinks_touching_boundary [0; 1; 3]%Q [2; 3; 4]%Q).
  reflexivity.
Defined.

(** C6 (as stated) fails twice.  The decrease depends on the scale of the
    data: at [2^35] the float64 value of [e - 1.0e-6] is [e] itself, so
    the end is left as it is although flag 0 is raised.  And the last
    emitted interval can be a decremented one: in [(0,2), (2,2)] the first
    interval touches the second and is decremented, the second has no
    duration and is dropped. *)
Lemma jitfix_shrink_not_as_stated :
  (_jitfix_iset [0; 34359738368]%Q [34359738368; 68719476736]%Q
     = Ok ([(0, 34359738368); (34359738368, 68719476736)]%Q,
           [true; false; false; false]) /\
   (fsub 34359738368 epsilon == 34359738368)%Q) /\
  (_jitfix_iset [0; 2]%Q [2; 2]%Q
     = Ok ([(0, fsub 2 epsilon)]%Q, [true; false; false; true]) /\
   last [(0, fsub 2 epsilon)]%Q = Some (0, fsub 2 epsilon)%Q /\
   (fsub 2 epsilon < 2)%Q).
Proof.
  repeat split; try (vm_compute; reflexivity).
Qed.

(** ** The concatenation wrapper *)

Section Concatenation.
Context {engine : NumericEngine} {nap : Pynapple}.

Lemma omap_cons_eq {A B} (f : A -> option B) (x : A) (l : list A) :
  omap f (x :: l)
    = match f x with Some y => y :: omap f l | None => omap f l end.
Proof. reflexivity. Qed.

Lemma collect_spec (args : list pyobj) (acc : collected) :
  let c := foldl collect acc args in
  arrays c = arrays acc ++ map operand_entry args /\
  time_indexes c = time_indexes acc ++ omap operand_index args /\
  time_supports c = time_supports acc ++ omap operand_support args /\
  columns_ c = columns_ acc ++ omap operand_columns args /\
  nap_class_ c = from_option Some (nap_class_ acc) (last (omap operand_class args)).
Proof.
  revert acc. induction args as [| a args IH]; intros acc.
  - simpl. by rewrite !app_nil_r.
  - change (foldl collect acc (a :: args))
      with (foldl collect (collect acc a) args). cbv zeta.
    destruct (IH (collect acc a)) as (H1 & H2 & H3 & H4 & H5).
    rewrite H1, H2, H3, H4, H5, !omap_cons_eq, map_cons. clear.
    generalize (map operand_entry args) (omap operand_index args)
      (omap operand_support args) (omap operand_columns args)
      (omap operand_class args).
    intros l1 l2 l3 l4 l5.
    unfold collect, operand_entry, operand_has_shape, operand_array,
      operand_index, operand_support, operand_columns, operand_class,
      exposes_metadata.
    destruct a as [cls aa hs [v |] [ix |] [ts |] [nt |] [cols |]]; simpl;
      rewrite <- ?app_assoc, ?last_cons; simpl; repeat split;
      try reflexivity; by destruct (last l5).
Qed.

Lemma exposes_inv (arg : pyobj) :
  exposes_metadata arg = true ->
  exists v ix ts nt, values arg = Some v /\ index arg = Some ix /\
    time_support arg = Some ts /\ nap_class arg = Some nt.
Proof.
  unfold exposes_metadata.
  destruct (values arg) as [v |], (index arg) as [ix |],
    (time_support arg) as [ts |], (nap_class arg) as [nt |];
    try discriminate.
  intros _. by exists v, ix, ts, nt.
Qed.

(** The lists of indexes and of supports are as long as the list of
    arrays exactly when every operand exposes the four attributes. *)
Lemma metadata_lengths (args : list pyobj) :
  (length (omap operand_index args) <= length args)%nat /\
  length (omap operand_support args) = length (omap operand_index args) /\
  (length (omap operand_index args) = length args
   <-> forallb exposes_metadata args = true).
Proof.
  induction args as [| a args (IH1 & IH2 & IH3)]; [by simpl |].
  rewrite !omap_cons_eq. simpl forallb.
  destruct (exposes_metadata a) eqn:E.
  - destruct (exposes_inv a E) as (v & ix & ts & nt & _ & Hix & Hts & _).
    assert (operand_index a = Some ix) as ->
      by (unfold operand_index; by rewrite E).
    assert (operand_support a = Some ts) as ->
      by (unfold operand_support; by rewrite E).
    simpl. rewrite IH2, <- IH3. repeat split; lia.
  - assert (operand_index a = None) as ->
      by (unfold operand_index; by rewrite E).
    assert (operand_support a = None) as ->
      by (unfold operand_support; by rewrite E).
    simpl. rewrite IH2. repeat split; try lia; discriminate.
Qed.

Lemma entries_arrays (args : list pyobj) :
  (map operand_entry args).*1 = map operand_array args.
Proof. by rewrite <- list_fmap_compose. Qed.

Lemma head_operand_entry (args0 : list pyobj) (a0 : pyobj) :
  head args0 = Some a0 ->
  read (map operand_entry args0) 0 = Ok (operand_entry a0).
Proof. destruct args0 as [| a args]; [discriminate |]. by intros [= ->]. Qed.

Lemma shape0_entry (a0 : pyobj) :
  operand_has_shape a0 = true ->
  shape0 (operand_entry a0) = Ok (length (operand_array a0)).
Proof. intros H. unfold shape0, operand_entry. simpl. by rewrite H. Qed.

Lemma exposes_has_shape (a0 : pyobj) :
  exposes_metadata a0 = true -> operand_has_shape a0 = true.
Proof. intros H. unfold operand_has_shape. by rewrite H. Qed.

Lemma head_exposes (args0 : list pyobj) (a0 : pyobj) :
  head args0 = Some a0 -> forallb exposes_metadata args0 = true ->
  exposes_metadata a0 = true.
Proof.
  destruct args0 as [| a args]; [discriminate |]. intros [= ->] H.
  simpl in H. by apply andb_true_iff in H as [H _].
Qed.


Lemma strictly_increasing_cons (x y : Q) (l : list Q) :
  strictly_increasing (x :: y :: l) <->
  (x < y)%Q /\ strictly_increasing (y :: l).
Proof.
  split.
  - intros H. split; [by apply (H 0%nat) |].
    intros k a b Ha Hb. by apply (H (S k)).
  - intros [Hxy H] k a b Ha Hb. destruct k as [| k].
    + simpl in Ha, Hb. by injection Ha as <-; injection Hb as <-.
    + by apply (H k).
Qed.

(** [np.any(np.diff(a) <= 0)] is false exactly on strictly increasing
    arrays. *)
Lemma np_diff_increasing (l : list Q) :
  existsb (fun x => Qle_bool x 0) (np_diff l) = false <-> strictly_increasing l.
Proof.
  induction l as [| x l IH].
  - split; [| reflexivity]. intros _ k a b Ha. by rewrite lookup_nil in Ha.
  - destruct l as [| y l].
    + split; [| reflexivity]. intros _ k a b _ Hb. simpl in Hb.
      by rewrite lookup_nil in Hb.
    + rewrite strictly_increasing_cons, <- IH.
      change (np_diff (x :: y :: l)) with ((y - x)%Q :: np_diff (y :: l)).
      simpl existsb. rewrite orb_false_iff.
      assert (Qle_bool (y - x) 0 = false <-> (x < y)%Q) as ->; [| reflexivity].
      destruct (Qle_bool (y - x) 0) eqn:E.
      * apply Qle_bool_iff in E. split; [discriminate | intros H; lra].
      * split; [intros _ | reflexivity].
        destruct (Qlt_le_dec x y) as [H | H]; [exact H |].
        assert (y - x <= 0)%Q as H' by lra.
        apply Qle_bool_iff in H'. congruence.
Qed.

(** The index-axis case of [_concatenate_tsd] (lines 203-220) when every
    operand exposes its metadata: the call raises exactly when the joined
    index is not strictly increasing, and otherwise builds a container of
    the class of the last operand on the joined index, the output and the
    left fold of [union] over the supports. *)
Lemma concatenate_index_axis
    (func : join_function) (args0 : list pyobj) (args_rest : list pyarg)
    (kwargs : option nat) (a0 : pyobj) (output : array) :
  head args0 = Some a0 ->
  join_implementation func (map operand_array args0)
    (effective_axis func args_rest kwargs) = Ok output ->
  (length (operand_array a0) < length output)%nat ->
  forallb exposes_metadata args0 = true ->
  let new_index := concat (omap operand_index args0) in
  (~ strictly_increasing new_index /\
   _concatenate_tsd func args0 args_rest kwargs
     = Err (RuntimeError not_increasing_msg)) \/
  (strictly_increasing new_index /\
   exists cls ts0 rest,
     last (omap operand_class args0) = Some cls /\
     omap operand_support args0 = ts0 :: rest /\
     _concatenate_tsd func args0 args_rest kwargs
       = Ok (Container (Call cls new_index output
                          (Some (foldl union ts0 rest))
                          (head (omap operand_columns args0))), [])).
Proof.
  intros Hfirst Himpl Hgrows Hall new_index.
  pose proof (exposes_has_shape _ (head_exposes _ _ Hfirst Hall)) as Hshape.
  unfold _concatenate_tsd. fold (effective_axis func args_rest kwargs).
  destruct (collect_spec args0 (Collected [] [] [] [] [] None))
    as (-> & -> & -> & -> & ->).
  simpl app. rewrite entries_arrays, Himpl. cbn [mbind res_bind].
  rewrite (head_operand_entry _ _ Hfirst). cbn [mbind res_bind].
  rewrite (shape0_entry _ Hshape). cbn [mbind res_bind].
  replace (length (operand_array a0) <? length output)%nat with true
    by (symmetry; by apply Nat.ltb_lt).
  destruct (metadata_lengths args0) as (_ & Hsup & Hiff).
  apply Hiff in Hall. rewrite Hsup, Hall, length_map, Nat.eqb_refl. simpl.
  fold new_index.
  destruct (existsb _ (np_diff new_index)) eqn:E.
  - left. split; [| reflexivity].
    intros H. apply np_diff_increasing in H. congruence.
  - right. split; [by apply np_diff_increasing |].
    destruct args0 as [| a args]; [discriminate |].
    injection Hfirst as ->.
    destruct (omap operand_support (a0 :: args)) as [| ts0 rest] eqn:Ets;
      [simpl in Hsup, Hall; rewrite <- Hsup in Hall; discriminate |].
    destruct (last (omap operand_class (a0 :: args))) as [cls |] eqn:Ecls.
    + exists cls, ts0, rest. by repeat split.
    + exfalso. apply last_None in Ecls.
      simpl in Hiff. apply Hiff in Hall. apply andb_true_iff in Hall as [Ha _].
      rewrite omap_cons_eq in Ecls. unfold operand_class at 1 in Ecls.
      by rewrite Ha in Ecls.
Qed.

(** *** The other axes (lines 224-244) *)


Lemma all_map_true {A} (f : A -> res bool) (l : list A) :
  all_map f l = Ok true <-> Forall (fun x => f x = Ok true) l.
Proof.
  induction l as [| x l IH]; simpl.
  - split; [constructor | reflexivity].
  - rewrite Forall_cons, <- IH. destruct (f x) as [[|] |]; simpl;
      split; try discriminate; try tauto; intros [? ?]; discriminate.
Qed.


Lemma elem_of_combinations2 {A} (l : list A) (p : A * A) :
  p ∈ combinations2 l -> p.1 ∈ l /\ p.2 ∈ l.
Proof.
  induction l as [| x l IH]; simpl.
  - by intros ?%elem_of_nil.
  - rewrite elem_of_app. intros [H | H].
    + apply list_elem_of_In, in_map_iff in H as (y & <- & Hy).
      simpl. split; [left | right; by apply list_elem_of_In].
    + destruct (IH H). split; by right.
Qed.



Lemma warnings_distinct :
  both_msg <> indexes_msg /\ both_msg <> supports_msg /\
  indexes_msg <> supports_msg.
Proof. repeat split; discriminate. Qed.

(** *** Where the [RuntimeError] comes from *)

Lemma all_map_error {A} (f : A -> res bool) (l : list A) (e : exn) :
  all_map f l = Err e -> exists x, x ∈ l /\ f x = Err e.
Proof.
  induction l as [| x l IH]; simpl; [discriminate |].
  destruct (f x) as [[|] |] eqn:E; simpl.
  - intros H. destruct (IH H) as (y & Hy & Hf). exists y. split; [by right | done].
  - discriminate.
  - intros [= ->]. exists x. split; [by left | done].
Qed.

Lemma np_allclose_error {A} (close : A -> A -> bool) (a b : list A) (e : exn) :
  np_allclose close a b = Err e -> e = ValueError.
Proof.
  unfold np_allclose. destruct (length a =? length b)%nat; [discriminate |].
  destruct a as [| ? [| ? ?]], b as [| ? [| ? ?]]; try discriminate;
    by intros [= <-].
Qed.

Lemma check_time_equals_error {A} (close : Q -> A -> A -> bool)
    (time_arrays : list (list A)) (e : exn) :
  _check_time_equals close time_arrays = Err e -> e = ValueError.
Proof.
  unfold _check_time_equals. intros H.
  apply all_map_error in H as (x & _ & H). by apply np_allclose_error in H.
Qed.

(** When the numeric engine returns, a [RuntimeError] of the wrapper is the
    one of line 208: every operand exposes its metadata, the output is
    longer than the first operand, and the joined index is not strictly
    increasing. *)
Lemma concatenate_runtime_error
    (func : join_function) (args0 : list pyobj) (args_rest : list pyarg)
    (kwargs : option nat) (output : array) (msg : string) :
  join_implementation func (map operand_array args0)
    (effective_axis func args_rest kwargs) = Ok output ->
  _concatenate_tsd func args0 args_rest kwargs = Err (RuntimeError msg) ->
  msg = not_increasing_msg /\
  forallb exposes_metadata args0 = true /\
  ~ strictly_increasing (concat (omap operand_index args0)) /\
  exists a0, head args0 = Some a0 /\
    (length (operand_array a0) < length output)%nat.
Proof.
  intros Himpl. unfold _concatenate_tsd.
  fold (effective_axis func args_rest kwargs).
  destruct (collect_spec args0 (Collected [] [] [] [] [] None))
    as (-> & -> & -> & -> & ->).
  simpl app. rewrite entries_arrays, Himpl. cbn [mbind res_bind].
  destruct (metadata_lengths args0) as (_ & Hsup & Hiff).
  rewrite Hsup, length_map, andb_diag.
  assert (forall a0, head args0 = Some a0 ->
            read (map operand_entry args0) 0 = Ok (operand_entry a0)) as Hhead
    by apply head_operand_entry.
  remember (omap operand_index args0) as ixs eqn:Eixs.
  remember (omap operand_support args0) as tss eqn:Etss.
  remember (omap operand_class args0) as cls eqn:Ecls.
  remember (omap operand_columns args0) as cols eqn:Ecols.
  destruct (head args0) as [a0 |] eqn:Ea0.
  2:{ destruct args0; discriminate. }
  rewrite (Hhead a0 eq_refl). cbn [mbind res_bind].
  destruct (operand_has_shape a0) eqn:Hshape.
  2:{ unfold shape0, operand_entry. simpl. rewrite Hshape. discriminate. }
  rewrite (shape0_entry _ Hshape). cbn [mbind res_bind].
  destruct (length (operand_array a0) <? length output)%nat eqn:Hgrow.
  - destruct (length ixs =? length args0)%nat eqn:Hall; [| discriminate].
    destruct (existsb _ _) eqn:Hdiff.
    + intros [= <-]. apply Nat.eqb_eq, Hiff in Hall.
      repeat split; try assumption.
      * intros H. apply np_diff_increasing in H. congruence.
      * exists a0. split; [reflexivity | by apply Nat.ltb_lt].
    + unfold read. destruct (tss !! 0%nat) as [ts0 |];
        cbn [mbind res_bind]; [| discriminate].
      unfold call_class. destruct (from_option _ _ _); discriminate.
  - destruct (length ixs =? 1)%nat.
    + unfold read. destruct (ixs !! 0%nat) as [t0 |];
        cbn [mbind res_bind]; [| discriminate].
      unfold read. destruct (tss !! 0%nat) as [ts0 |];
        cbn [mbind res_bind]; [| discriminate].
      unfold call_class. destruct (from_option _ _ _); discriminate.
    + destruct (_check_time_equals close_time ixs) as [te | e] eqn:Hte;
        cbn [mbind res_bind].
      2:{ apply check_time_equals_error in Hte. subst e. discriminate. }
      destruct (_check_time_equals close_interval tss) as [se | e] eqn:Hse;
        cbn [mbind res_bind].
      2:{ apply check_time_equals_error in Hse. subst e. discriminate. }
      destruct (te && se); [| discriminate].
      unfold read. destruct (ixs !! 0%nat) as [t0 |];
        cbn [mbind res_bind]; [| discriminate].
      unfold read. destruct (tss !! 0%nat) as [ts0 |];
        cbn [mbind res_bind]; [| discriminate].
      unfold call_class. destruct (from_option _ _ _); discriminate.
Qed.

End Concatenation.

(** ** Splitting and joining again *)

Section RoundTrip.
Context {engine : NumericEngine} {nap : Pynapple}.

Lemma slices_cumsum_length {A} (a : list A) (acc : nat) (sizes : list nat) :
  length (slices a (acc :: cumsum acc sizes)) = length sizes.
Proof.
  revert acc. induction sizes as [| x sizes IH]; intros acc; [reflexivity |].
  simpl. f_equal. apply IH.
Qed.

Lemma concat_slices_cumsum {A} (a : list A) (acc : nat) (sizes : list nat) :
  concat (slices a (acc :: cumsum acc sizes))
    = take (sum_list sizes) (drop acc a).
Proof.
  revert acc. induction sizes as [| x sizes IH]; intros acc; [reflexivity |].
  change (concat (slices a (acc :: cumsum acc (x :: sizes))))
    with (slice a acc (acc + x) ++
          concat (slices a ((acc + x)%nat :: cumsum (acc + x) sizes))).
  rewrite IH. unfold slice.
  replace (acc + x - acc)%nat with x by lia.
  rewrite <- drop_drop. simpl sum_list. apply take_take_drop.
Qed.

(** [np.split] into [N] sections of a list whose length [N] divides:
    [N] pieces, the first of length [len / N], which joined give the list
    back. *)
Lemma np_split_sections {A} (a : list A) (N : nat) :
  (0 < N)%nat -> (length a mod N = 0)%nat ->
  exists rest,
    np_split a (Sections N) = Ok (take (length a / N) a :: rest) /\
    length (take (length a / N) a :: rest) = N /\
    concat (take (length a / N) a :: rest) = a.
Proof.
  intros HN Hmod. unfold np_split, np_array_split.
  replace (N =? 0)%nat with false by (symmetry; apply Nat.eqb_neq; lia).
  rewrite Hmod. simpl negb. cbv iota. simpl replicate. rewrite Nat.sub_0_r.
  set (e := (length a / N)%nat).
  assert (length a = N * e)%nat as HL.
  { unfold e. by apply Nat.Div0.div_exact. }
  destruct N as [| N]; [lia |].
  assert (slices a (0%nat :: cumsum 0 (replicate (S N) e))
          = take e a :: slices a ((0 + e)%nat :: cumsum (0 + e) (replicate N e)))
    as Heq by (simpl; unfold slice; by rewrite Nat.sub_0_r).
  exists (slices a ((0 + e)%nat :: cumsum (0 + e) (replicate N e))).
  rewrite <- Heq. split; [reflexivity | split].
  - by rewrite slices_cumsum_length, length_replicate.
  - rewrite concat_slices_cumsum, sum_list_replicate. simpl drop.
    apply take_ge. lia.
Qed.

(** Operands that were built by a constructor expose their metadata. *)
Lemma constructed_operands (P : list call) :
  map operand_array (map construct P) = map d P /\
  omap operand_index (map construct P) = map t P /\
  omap operand_support (map construct P)
    = map (fun p => default (default_support (t p)) (kw_time_support p)) P /\
  omap operand_class (map construct P) = map callee P /\
  forallb exposes_metadata (map construct P) = true.
Proof.
  induction P as [| p P (H1 & H2 & H3 & H4 & H5)]; [by simpl |].
  rewrite !map_cons, !omap_cons_eq. simpl forallb.
  rewrite H1, H2, H3, H4, H5. by repeat split.
Qed.

Lemma pieces_spec (cls : string) (cols : option (list string))
    (ixs : list (list Q)) (vs : list array) :
  length ixs = length vs ->
  let P := map (fun td : list Q * array => Call cls td.1 td.2 None cols)
               (zip ixs vs) in
  length P = length vs /\ map d P = vs /\ map t P = ixs /\
  map (fun p => default (default_support (t p)) (kw_time_support p)) P
    = map (fun p => default_support (t p)) P /\
  Forall (fun p => callee p = cls) P.
Proof.
  intros Hl P. unfold P. repeat split.
  - rewrite length_map, length_zip. lia.
  - rewrite <- list_fmap_compose.
    rewrite <- (snd_zip ixs vs) at 2 by lia. reflexivity.
  - rewrite <- list_fmap_compose.
    rewrite <- (fst_zip ixs vs) at 2 by lia. reflexivity.
  - rewrite <- !list_fmap_compose. reflexivity.
  - apply Forall_fmap, Forall_forall. by intros [? ?] _.
Qed.

Lemma last_callee (P : list call) (cls c : string) :
  Forall (fun p => callee p = cls) P -> last (map callee P) = Some c -> c = cls.
Proof.
  intros HP Hlast. apply last_Some_elem_of, list_elem_of_fmap in Hlast
    as (p & -> & Hp).
  rewrite Forall_forall in HP. by apply HP.
Qed.

(** The pieces of a split at axis 0, joined again by [np.concatenate]. *)
Lemma join_pieces (cls : string) (cols : option (list string))
    (ix : list Q) (vals : array) (i0 : list Q) (irest : list (list Q))
    (v0 : array) (vrest : list array) :
  length irest = length vrest ->
  concat (i0 :: irest) = ix -> concat (v0 :: vrest) = vals ->
  strictly_increasing ix ->
  (vrest = [] \/ (length v0 < length vals)%nat) ->
  let P := map (fun td : list Q * array => Call cls td.1 td.2 None cols)
               (zip (i0 :: irest) (v0 :: vrest)) in
  exists c ts0 rest,
    _concatenate_tsd np_concatenate (map construct P) [] None
      = Ok (Container c, []) /\
    d c = vals /\ t c = ix /\ callee c = cls /\
    map (fun p => default_support (t p)) P = ts0 :: rest /\
    kw_time_support c = Some (foldl union ts0 rest).
Proof.
  intros Hl Hix Hvals Hinc Hcase P.
  destruct (pieces_spec cls cols (i0 :: irest) (v0 :: vrest)
              ltac:(simpl; lia)) as (HlP & HdP & HtP & HsP & HcP).
  fold P in HlP, HdP, HtP, HsP, HcP.
  destruct (constructed_operands P) as (Harr & Hidx & Hsup & Hcls & Hall).
  destruct Hcase as [-> | Hgrows].
  - destruct irest; [| discriminate]. simpl in Hix, Hvals.
    rewrite app_nil_r in Hix, Hvals. subst i0 v0.
    exists (Call cls ix vals (Some (default_support ix)) None),
      (default_support ix), [].
    repeat split. unfold _concatenate_tsd. simpl.
    rewrite app_nil_r, Nat.ltb_irrefl. reflexivity.
  - destruct P as [| p0 P'] eqn:EP; [discriminate |].
    destruct (concatenate_index_axis np_concatenate (map construct (p0 :: P'))
                [] None (construct p0) vals) as [[Hbad _] | (_ & c & ts0 & rest & Hc & Hts & Hrun)].
    + reflexivity.
    + rewrite Harr, HdP. simpl. by rewrite <- Hvals.
    + assert (operand_array (construct p0) = v0) as ->; [| exact Hgrows].
      simpl in HdP. injection HdP as Hd0 _. by rewrite <- Hd0.
    + exact Hall.
    + exfalso. apply Hbad. by rewrite Hidx, HtP, Hix.
    + rewrite Hidx, HtP, Hix in Hrun. rewrite Hsup, HsP in Hts.
      rewrite Hcls in Hc.
      eexists _, ts0, rest. split; [exact Hrun |].
      repeat split; try assumption. simpl.
      by apply (last_callee (p0 :: P')).
Qed.

(** C8 (as amended).  For a container with [L > 0] rows, a strictly
    increasing index and [N >= 1] dividing [L]: [_split_tsd] with
    [np.split] at axis 0 returns [N] constructor calls, and
    [_concatenate_tsd] with [np.concatenate] on the containers built from
    them ends with the call of the constructor of the same class with the
    original value array as [d], the original time index as [t], and as
    [time_support] the left fold of [union] over the supports that the
    constructor gave to the pieces; the support of the original container
    is not read.  What the constructor keeps of [d] and [t] under that
    support is not decided in [utils.py]. *)
Theorem split_concatenate_round_trip
    (tsd : pyobj) (vals : array) (ix : list Q) (N : nat)
    (Hvals : values tsd = Some vals) (Hix : index tsd = Some ix)
    (Hshape : length vals = length ix) (Hrows : (0 < length ix)%nat)
    (HN : (0 < N)%nat) (Hdiv : (length ix mod N = 0)%nat)
    (Hinc : strictly_increasing ix) :
  exists pieces,
    _split_tsd np_split_function tsd (Sections N) 0 = Ok (Containers pieces) /\
    length pieces = N /\
    exists c ts0 rest,
      _concatenate_tsd np_concatenate (map construct pieces) [] None
        = Ok (Container c, []) /\
      d c = vals /\ t c = ix /\ callee c = __class__ tsd /\
      map (fun p => default_support (t p)) pieces = ts0 :: rest /\
      kw_time_support c = Some (foldl union ts0 rest).
Proof.
  destruct (np_split_sections vals N HN ltac:(by rewrite Hshape))
    as (vrest & Hsv & Hlv & Hcv).
  destruct (np_split_sections ix N HN Hdiv) as (irest & Hsi & Hli & Hci).
  set (v0 := take (length vals / N) vals) in *.
  set (i0 := take (length ix / N) ix) in *.
  eexists. split; [| split].
  - unfold _split_tsd.
    change (is_row_split np_split_function && (0 =? 0)%nat) with true.
    cbv iota. rewrite Hvals, Hix. cbn [getattr mbind res_bind].
    change (split_implementation np_split_function vals (Sections N) None)
      with (np_split vals (Sections N)).
    rewrite Hsv. cbn [mbind res_bind]. rewrite Hsi. reflexivity.
  - rewrite length_map, length_zip. simpl in Hlv, Hli. simpl.
    unfold array in *. lia.
  - apply join_pieces; try assumption.
    + simpl in Hlv, Hli. unfold array in *. lia.
    + destruct (decide (N = 1%nat)) as [-> | HN1].
      * left. simpl in Hlv. destruct vrest; [reflexivity | discriminate].
      * right. unfold v0. rewrite length_take, Hshape.
        pose proof (Nat.div_lt (length ix) N Hrows ltac:(lia)).
        unfold array in *. lia.
Qed.

End RoundTrip.


(** ** The wrappers on concrete operands *)

Section Examples.
Local Existing Instance example_nap.
Local Open Scope string_scope.
Local Open Scope Q_scope.



(** C2 (the code at the failing inputs).  Beside the [RuntimeError] of the
    index-axis case, the wrapper lets two other errors reach its caller on
    the other axes: the [ValueError] of [np.allclose] when two supports
    have different numbers of rows, neither of them 1, and the
    [IndexError] of [time_indexes[0]] when no operand exposes its
    metadata. *)
Theorem concatenate_other_fatal_errors :
  _concatenate_tsd np_concatenate
    [frame [0; 5 # 2; 9 # 2] [[1]; [2]; [3]] [(0, 1); (2, 3); (4, 5)];
     frame [0; 5 # 2; 9 # 2] [[4]; [5]; [6]] [(0, 3); (4, 5)]]
    [PyInt 1] None
  = Err ValueError /\
  _concatenate_tsd np_concatenate
    [ndarray [[1]; [2]]; ndarray [[3]; [4]]] [PyInt 1] None
  = Err IndexError /\
  _concatenate_tsd np_concatenate
    [frame [0; 1; 2] [[1]; [2]; [3]] [(0, 2)];
     frame [1; 2; 3] [[4]; [5]; [6]] [(1, 3)]] [] None
  = Err (RuntimeError not_increasing_msg).
Proof. repeat split. Qed.

(** C3 (the code at the failing input).  Two containers on the same index
    whose supports have three rows and two rows, joined along axis 1: the
    indexes compare equal, the comparison of the supports raises, and no
    array and no warning is returned. *)
Theorem concatenate_support_shapes_raise :
  _check_time_equals close_time [[0; 5 # 2; 9 # 2]; [0; 5 # 2; 9 # 2]]
  = Ok true /\
  _check_time_equals close_interval
    [[(0, 1); (2, 3); (4, 5)]; [(0, 3); (4, 5)]]
  = Err ValueError /\
  _concatenate_tsd np_concatenate
    [frame [0; 5 # 2; 9 # 2] [[1]; [2]; [3]] [(0, 1); (2, 3); (4, 5)];
     frame [0; 5 # 2; 9 # 2] [[4]; [5]; [6]] [(0, 3); (4, 5)]]
    [] (Some 1%nat)
  = Err ValueError /\
  _concatenate_tsd np_concatenate
    [frame [0; 5 # 2; 9 # 2] [[1]; [2]; [3]] [(0, 5)];
     frame [0; 5 # 2; 9 # 2] [[4]; [5]; [6]] [(0, 3); (4, 5)]]
    [] (Some 1%nat)
  = Ok (NdArray [[1; 4]; [2; 5]; [3; 6]], [supports_msg]).
Proof. repeat split. Qed.

Lemma split_concatenate_round_trip_witness :
  exists pieces,
    _split_tsd np_split_function
      (frame [0; 1; 2; 3] [[1]; [2]; [3]; [4]] [(0, 3)]) (Sections 2) 0
      = Ok (Containers pieces) /\
    length pieces = 2%nat /\
    exists c ts0 rest,
      _concatenate_tsd np_concatenate (map construct pieces) [] None
        = Ok (Container c, []) /\
      d c = [[1]; [2]; [3]; [4]] /\ t c = [0; 1; 2; 3] /\
      callee c = "TsdFrame" /\
      map (fun p => default_support (t p)) pieces = ts0 :: rest /\
      kw_time_support c = Some (foldl union ts0 rest).
Proof.
  apply (split_concatenate_round_trip
           (frame [0; 1; 2; 3] [[1]; [2]; [3]; [4]] [(0, 3)])
           [[1]; [2]; [3]; [4]] [0; 1; 2; 3] 2);
    try reflexivity; try (simpl; lia).
  by apply np_diff_increasing.
Defined.

End Examples.

(** C8 (as stated) fails for the support, whatever the constructors and
    [IntervalSet.union] do: the split wrapper passes no support to the
    pieces, so two containers with the same index and values and different
    supports come back as one and the same container. *)
Lemma split_concatenate_forgets_support :
  ~ exists nap : Pynapple,
      forall (ix : list Q) (vals : list (list Q)) (ts : iset) (N : nat)
             (pieces : list call) (c : call),
        _split_tsd np_split_function (frame ix vals ts) (Sections N) 0
          = Ok (Containers pieces) ->
        _concatenate_tsd np_concatenate (map construct pieces) [] None
          = Ok (Container c, []) ->
        d c = vals /\ t c = ix /\
        exists s, kw_time_support c = Some s /\
                  forall x, covers s x <-> covers ts x.
Proof.
  intros [nap H].
  set (ix := [0; 1]%Q). set (vals := [[1]; [2]]%Q).
  set (pieces :=
         [@Call matrix_engine "TsdFrame"%string [0]%Q [[1]]%Q None (Some labels);
          @Call matrix_engine "TsdFrame"%string [1]%Q [[2]]%Q None (Some labels)]).
  set (c := @Call matrix_engine "TsdFrame"%string ix vals
              (Some (union (default_support [0]%Q) (default_support [1]%Q)))
              (Some labels)).
  destruct (H ix vals [(0, 1)]%Q 2%nat pieces c eq_refl eq_refl)
    as (_ & _ & s1 & [= <-] & H1).
  destruct (H ix vals [(0, 2)]%Q 2%nat pieces c eq_refl eq_refl)
    as (_ & _ & s2 & [= <-] & H2).
  assert (covers [(0, 2)]%Q 2) as Hin.
  { exists (0, 2)%Q. split; [by left | simpl; lra]. }
  apply H2, H1 in Hin. destruct Hin as (r & Hr & Hlo & Hhi).
  apply list_elem_of_singleton in Hr. subst r. simpl in Hhi. lra.
Qed.


(** * Further properties of [_jitfix_iset] *)

Section Flags.
Variables start end_ : list Q.
Hypothesis Hlen : length end_ = length start.

Let m := Jitfix.m start.

(** X1. A flag is only raised for an anomaly that the inputs show: the
    normalizer runs to completion, returns four flags, and each flag that
    is true comes with positions of [start] and [end] at which the anomaly
    of the docstring holds. *)
Theorem jitfix_flags_are_justified :
  exists d w, _jitfix_iset start end_ = Ok (d, w) /\ length w = 4%nat /\
    forall k, w !! k = Some true -> anomaly start end_ k.
Proof using Hlen.
  destruct (loop_total start end_ Hlen
    (fun s => length (to_warn s) = 4%nat /\
       forall k, to_warn s !! k = Some true -> anomaly start end_ k))
    as (s & Hs & [Hl HP] & _ & _).
  - split; [reflexivity |]. intros k Hk.
    change (replicate 4 false !! k = Some true) in Hk.
    apply lookup_replicate in Hk as [? _]. discriminate.
  - intros s c s' (Hd & Hct & Hi) Hlt [Hl HP] Hb. fold m in Hd, Hi, Hlt.
    destruct (body_spec start end_ Hlen s Hlt ltac:(lia))
      as (c2 & s2 & ia & ib & Hb2 & H1 & H2 & H3 & Hz & Hinv & Hcase).
    rewrite Hb in Hb2. injection Hb2 as <- <-. fold m in H3.
    assert (forall k,
      flag_if (negb (ib =? ia)) 1 (flag_if (negb (ia =? i s)) 3 (to_warn s)) !! k
        = Some true -> anomaly start end_ k) as Hskip.
    { intros k Hk.
      apply flag_if_lookup in Hk as [Hk | [Hne ->]].
      - apply flag_if_lookup in Hk as [Hk | [Hne ->]]; [by apply HP |].
        apply negb_true_iff, Nat.eqb_neq in Hne.
        exists (i s), (at_ start (i s)), (at_ end_ (i s)).
        split; [apply lookup_at; unfold m, Jitfix.m in *; lia |].
        split; [apply lookup_at; unfold m, Jitfix.m in *; lia |].
        apply Hz. lia.
      - apply negb_true_iff, Nat.eqb_neq in Hne.
        exists ia, (at_ start ia), (at_ end_ ia).
        split; [apply lookup_at; unfold m, Jitfix.m in *; lia |].
        split; [apply lookup_at; unfold m, Jitfix.m in *; lia |].
        apply Hinv. lia. }
    destruct Hcase as [(_ & _ & _ & _ & _ & ->) |
      (_ & Hib & _ & _ & ic & Hic & Hicm & Hov & _ & _ & _ & _ & ->)].
    + split; [by rewrite !length_flag_if | exact Hskip].
    + fold m in Hib, Hicm. split; [by rewrite !length_flag_if |].
      intros k Hk.
      apply flag_if_lookup in Hk as [Hk | [Ht ->]].
      * apply flag_if_lookup in Hk as [Hk | [Hne ->]]; [by apply Hskip |].
        apply negb_true_iff, Nat.eqb_neq in Hne.
        exists ib, (at_ start (ib + 1)), (at_ end_ ib).
        split; [rewrite <- Nat.add_1_r; apply lookup_at;
                unfold m, Jitfix.m in *; lia |].
        split; [apply lookup_at; unfold m, Jitfix.m in *; lia |].
        apply Hov. lia.
      * unfold touches in Ht. apply andb_true_iff in Ht as [Hnext Heq].
        apply Nat.ltb_lt in Hnext. apply Qeq_bool_iff in Heq.
        destruct (merged_end_elem end_ ib ic Hic
                    ltac:(unfold m, Jitfix.m in *; lia)) as (j & _ & Hj & Hin).
        exists j, ic, (at_ start (ic + 1)), (merged_end end_ ib ic).
        split; [exact Hj |]. split; [exact Hin |].
        split; [rewrite <- Nat.add_1_r; apply lookup_at; lia | exact Heq].
  - exists (take (ct s) (data s)), (to_warn s).
    unfold _jitfix_iset. rewrite Hs. auto.
Qed.

(** X2. Every emitted end is one of the input ends, as it is or as the
    float64 value of that end minus [1.0e-6]: no other value is ever
    written into the second column. *)
Theorem jitfix_ends_are_input_ends :
  exists d w, _jitfix_iset start end_ = Ok (d, w) /\
    Forall (fun row : Q * Q =>
      exists e, e ∈ end_ /\ (row.2 = e \/ row.2 = fsub e epsilon)) d.
Proof using Hlen.
  destruct (loop_total start end_ Hlen
    (fun s => Forall (fun row : Q * Q =>
       exists e, e ∈ end_ /\ (row.2 = e \/ row.2 = fsub e epsilon))
       (take (ct s) (data s))))
    as (s & Hs & HP & _ & _).
  - simpl. constructor.
  - intros s c s' (Hd & Hct & Hi) Hlt HP Hb. fold m in Hd, Hi, Hlt.
    destruct (body_spec start end_ Hlen s Hlt ltac:(lia))
      as (c2 & s2 & ia & ib & Hb2 & _ & _ & _ & _ & _ & Hcase).
    rewrite Hb in Hb2. injection Hb2 as <- <-.
    destruct Hcase as [(_ & _ & _ & Hct' & Hd' & _) |
      (_ & Hib & _ & _ & ic & Hic & Hicm & _ & _ & _ & Hct' & Hd' & _)].
    + by rewrite Hct', Hd'.
    + rewrite Hct', Hd', take_emit by lia.
      apply Forall_app. split; [exact HP |].
      constructor; [| constructor]. simpl.
      destruct (merged_end_elem end_ ib ic Hic
                  ltac:(unfold m, Jitfix.m in *; lia)) as (j & _ & _ & Hin).
      exists (merged_end end_ ib ic).
      split; [by eapply list_elem_of_lookup_2 |].
      unfold emitted_end. destruct (touches _ _ _); [by right | by left].
  - exists (take (ct s) (data s)), (to_warn s).
    unfold _jitfix_iset. rewrite Hs. auto.
Qed.

Lemma singleton_sublist {A} (x : A) (l : list A) :
  x ∈ l -> [x] `sublist_of` l.
Proof.
  intros (l1 & l2 & ->)%list_elem_of_split.
  apply sublist_inserts_l. apply sublist_skip, sublist_nil_l.
Qed.

(** X3. The starts of the emitted intervals are a subsequence of [start]:
    input starts are dropped but never reordered, duplicated or changed. *)
Theorem jitfix_starts_subsequence :
  exists d w, _jitfix_iset start end_ = Ok (d, w) /\
    d.*1 `sublist_of` start.
Proof using Hlen.
  destruct (loop_total start end_ Hlen
    (fun s => (take (ct s) (data s)).*1 `sublist_of` take (i s) start))
    as (s & Hs & HP & _ & Hi).
  - simpl. apply sublist_nil_l.
  - intros s c s' (Hd & Hct & Him) Hlt HP Hb. fold m in Hd, Him, Hlt.
    destruct (body_spec start end_ Hlen s Hlt ltac:(lia))
      as (c2 & s2 & ia & ib & Hb2 & H1 & H2 & H3 & _ & _ & Hcase).
    rewrite Hb in Hb2. injection Hb2 as <- <-. fold m in H3.
    assert (forall n, (i s <= n)%nat ->
              take (i s) start `sublist_of` take n start) as Hgrow.
    { intros n Hn.
      assert (take n start
              = take (i s) start ++ take (n - i s) (drop (i s) start)) as ->
        by (rewrite take_take_drop; f_equal; lia).
      rewrite <- (app_nil_r (take (i s) start)) at 1.
      apply sublist_app; [done | apply sublist_nil_l]. }
    destruct Hcase as [(_ & _ & Hi' & Hct' & Hd' & _) |
      (_ & Hib & _ & _ & ic & Hic & Hicm & _ & _ & Hi' & Hct' & Hd' & _)].
    + rewrite Hct', Hd', Hi'. etrans; [exact HP | apply Hgrow; lia].
    + fold m in Hib, Hicm.
      rewrite Hct', Hd', Hi', take_emit, fmap_app by lia. simpl.
      assert (take (ic + 1) start
              = take (i s) start ++ take (ic + 1 - i s) (drop (i s) start)) as ->
        by (rewrite take_take_drop; f_equal; lia).
      apply sublist_app; [exact HP |].
      apply singleton_sublist.
      apply (list_elem_of_lookup_2 _ (ib - i s)).
      rewrite lookup_take_lt, lookup_drop by lia.
      replace (i s + (ib - i s))%nat with ib by lia.
      apply lookup_at. unfold m, Jitfix.m in *. lia.
  - exists (take (ct s) (data s)), (to_warn s).
    unfold _jitfix_iset. rewrite Hs. split; [reflexivity |].
    rewrite Hi in HP. unfold m, Jitfix.m in HP.
    by rewrite firstn_all in HP.
Qed.

Lemma lookup_zip_at (k : nat) :
  (k < m)%nat -> zip start end_ !! k = Some (at_ start k, at_ end_ k).
Proof using Hlen.
  intros Hk. apply lookup_zip_with_Some.
  exists (at_ start k), (at_ end_ k).
  split; [reflexivity |].
  split; apply lookup_at; unfold m, Jitfix.m in *; lia.
Qed.

(** X5. No silent repair: when the four flags come back false, the
    interval array is the input, row by row. *)
Theorem jitfix_no_flag_no_change :
  exists d w, _jitfix_iset start end_ = Ok (d, w) /\
    (w = [false; false; false; false] -> d = zip start end_).
Proof using Hlen.
  destruct (loop_total start end_ Hlen
    (fun s => length (to_warn s) = 4%nat /\
       (to_warn s = replicate 4 false ->
        ct s = i s /\ take (i s) (data s) = take (i s) (zip start end_))))
    as (s & Hs & [Hl HP] & (Hd & _ & _) & Hi).
  - split; [reflexivity |]. intros _. split; reflexivity.
  - intros s c s' (Hd & Hct & Him) Hlt [Hl HP] Hb. fold m in Hd, Him, Hlt.
    destruct (body_spec start end_ Hlen s Hlt ltac:(lia))
      as (c2 & s2 & ia & ib & Hb2 & H1 & H2 & H3 & _ & _ & Hcase).
    rewrite Hb in Hb2. injection Hb2 as <- <-. fold m in H3.
    assert (forall b1 b3 : bool,
      flag_if b1 1 (flag_if b3 3 (to_warn s)) = replicate 4 false ->
      b1 = false /\ b3 = false /\ to_warn s = replicate 4 false) as Hinv2.
    { intros b1 b3 H.
      rewrite <- Hl, <- (length_flag_if b3 3) in H.
      apply flag_if_all_false in H as [-> H];
        [| rewrite length_flag_if; lia].
      rewrite length_flag_if in H.
      apply flag_if_all_false in H as [-> H]; [| lia].
      by rewrite Hl in H. }
    destruct Hcase as [(_ & Hbm & Hi' & Hct' & Hd' & Hw') |
      (_ & Hib & _ & _ & ic & Hic & Hicm & _ & _ & Hi' & Hct' & Hd' & Hw')].
    + split; [by rewrite Hw', !length_flag_if |].
      rewrite Hw'. intros H. apply Hinv2 in H as (Hb1 & Hb3 & _).
      apply negb_false_iff, Nat.eqb_eq in Hb1, Hb3. fold m in Hbm. lia.
    + fold m in Hib, Hicm.
      split; [by rewrite Hw', !length_flag_if |].
      rewrite Hw'. intros H.
      rewrite <- Hl, <- (length_flag_if (negb (ia =? i s)) 3),
        <- (length_flag_if (negb (ib =? ia)) 1),
        <- (length_flag_if (negb (ic =? ib)) 2) in H.
      apply flag_if_all_false in H as [Ht H];
        [| rewrite !length_flag_if; lia].
      rewrite length_flag_if in H.
      apply flag_if_all_false in H as [Hb2 H];
        [| rewrite !length_flag_if; lia].
      rewrite !length_flag_if, Hl in H.
      apply Hinv2 in H as (Hb1 & Hb3 & Hw).
      apply negb_false_iff, Nat.eqb_eq in Hb1, Hb2, Hb3. subst ic ib ia.
      destruct (HP Hw) as [Hcti Htake].
      rewrite Hi', Hct', Hd', Hcti. split; [reflexivity |].
      rewrite take_emit by lia.
      rewrite Nat.add_1_r, (take_S_r _ _ _ (lookup_zip_at (i s) Hlt)), Htake.
      do 2 f_equal. unfold emitted_end. rewrite Ht.
      unfold merged_end. by rewrite Nat.eqb_refl.
  - exists (take (ct s) (data s)), (to_warn s).
    unfold _jitfix_iset. rewrite Hs. split; [reflexivity |].
    intros Hw. destruct (HP Hw) as [Hct Htake].
    rewrite Hct, Htake, Hi. apply take_ge.
    rewrite length_zip_with_l_eq; unfold m, Jitfix.m; lia.
Qed.

End Flags.

(** X4. When [start] is sorted ascending, whatever [end] holds, no
    emitted interval is inverted before the decrement: its end is an
    input end [e] with [start <= e], as it is or as the float64 value of
    [e - 1.0e-6]. *)
Theorem jitfix_rows_almost_ordered (start end_ : list Q)
    (Hlen : length end_ = length start) (Hstart : ascending start) :
  exists d w, _jitfix_iset start end_ = Ok (d, w) /\
    Forall (fun row : Q * Q =>
              exists e, e ∈ end_ /\ (row.1 <= e)%Q /\
                (row.2 = e \/ row.2 = fsub e epsilon)) d.
Proof.
  destruct (loop_total start end_ Hlen
    (fun s => Forall (fun row : Q * Q =>
                exists e, e ∈ end_ /\ (row.1 <= e)%Q /\
                  (row.2 = e \/ row.2 = fsub e epsilon))
                (take (ct s) (data s))))
    as (s & Hs & HP & _ & _).
  - simpl. constructor.
  - intros s c s' (Hd & Hct & Hi) Hlt HP Hb.
    destruct (body_spec start end_ Hlen s Hlt ltac:(lia))
      as (c2 & s2 & ia & ib & Hb2 & _ & _ & _ & _ & _ & Hcase).
    rewrite Hb in Hb2. injection Hb2 as <- <-.
    destruct Hcase as [(_ & _ & _ & Hct' & Hd' & _) |
      (_ & Hib & _ & Hpos & ic & Hic & Hicm & Hov & _ & _ & Hct' & Hd' & _)].
    + by rewrite Hct', Hd'.
    + rewrite Hct', Hd', take_emit by lia.
      apply Forall_app. split; [exact HP |].
      constructor; [| constructor]. simpl.
      assert (at_ start ib <= merged_end end_ ib ic)%Q as Hm.
      { unfold merged_end. destruct (ic =? ib)%nat eqn:E; [exact Hpos |].
        apply Nat.eqb_neq in E.
        pose proof (Hov (ic - 1)%nat ltac:(lia)) as Ho.
        replace (ic - 1 + 1)%nat with ic in Ho by lia.
        pose proof (ascending_at start ib ic Hstart Hic
                      ltac:(unfold Jitfix.m in *; lia)) as Hs.
        destruct (pymax_cases (at_ end_ (ic - 1)) (at_ end_ ic))
          as [[-> ?] | [-> ?]]; lra. }
      destruct (merged_end_elem end_ ib ic Hic
                  ltac:(unfold Jitfix.m in *; lia)) as (j & _ & _ & Hin).
      exists (merged_end end_ ib ic).
      split; [by eapply list_elem_of_lookup_2 |]. split; [exact Hm |].
      unfold emitted_end. destruct (touches _ _ _); [by right | by left].
  - exists (take (ct s) (data s)), (to_warn s).
    unfold _jitfix_iset. rewrite Hs. auto.
Qed.

Lemma merged_end_sorted (end_ : list Q) (i1 i2 : nat) :
  ascending end_ -> (i1 <= i2)%nat -> (i2 < length end_)%nat ->
  (merged_end end_ i1 i2 == at_ end_ i2)%Q.
Proof.
  intros Hend H12 H2. unfold merged_end.
  destruct (i2 =? i1)%nat eqn:E.
  - apply Nat.eqb_eq in E. subst. reflexivity.
  - apply Nat.eqb_neq in E.
    pose proof (ascending_at end_ (i2 - 1) i2 Hend ltac:(lia) H2) as Hle.
    destruct (pymax_cases (at_ end_ (i2 - 1)) (at_ end_ i2))
      as [[-> ?] | [-> ?]]; lra.
Qed.

(** X6. Nothing of the input is lost on well-formed input: when [start]
    and [end] are both sorted ascending and every interval has a positive
    duration, each input interval lies within one emitted interval as it
    was before the decrement: the row starts at or before the interval,
    and its end is an input end [e'] at or after the end of the interval,
    as it is or as the float64 value of [e' - 1.0e-6]. *)
Theorem jitfix_covers_input (start end_ : list Q)
    (Hstart : ascending start) (Hend : ascending end_)
    (Hpos : positive_durations start end_) :
  exists d w, _jitfix_iset start end_ = Ok (d, w) /\
    forall k b e, start !! k = Some b -> end_ !! k = Some e ->
      exists row e', row ∈ d /\ e' ∈ end_ /\
        (row.1 <= b)%Q /\ (e <= e')%Q /\
        (row.2 = e' \/ row.2 = fsub e' epsilon).
Proof.
  assert (length end_ = length start) as Hlen
    by (symmetry; exact (Forall2_length _ _ _ Hpos)).
  assert (forall k, (k < length start)%nat -> (at_ start k < at_ end_ k)%Q)
    as Hposk.
  { intros k Hk.
    apply (Forall2_lookup_lr _ _ _ k _ _ Hpos); apply lookup_at; lia. }
  destruct (loop_total start end_ Hlen
    (fun s => forall k, (k < i s)%nat ->
       exists row e', row ∈ take (ct s) (data s) /\ e' ∈ end_ /\
         (row.1 <= at_ start k)%Q /\ (at_ end_ k <= e')%Q /\
         (row.2 = e' \/ row.2 = fsub e' epsilon)))
    as (s & Hs & HP & _ & Hi).
  - simpl. intros k Hk. lia.
  - intros s c s' (Hd & Hct & Him) Hlt HP Hb.
    unfold Jitfix.m in Hd, Him, Hlt.
    destruct (body_spec start end_ Hlen s Hlt ltac:(lia))
      as (c2 & s2 & ia & ib & Hb2 & H1 & H2 & H3 & Hz & Hinv & Hcase).
    rewrite Hb in Hb2. injection Hb2 as <- <-. unfold Jitfix.m in H3.
    assert (ia = i s) as ->.
    { destruct (decide (ia = i s)) as [| Hne]; [done |].
      pose proof (Hz (i s) ltac:(lia)). pose proof (Hposk (i s) Hlt). lra. }
    assert (ib = i s) as ->.
    { destruct (decide (ib = i s)) as [| Hne]; [done |].
      pose proof (Hinv (i s) ltac:(lia)). pose proof (Hposk (i s) Hlt). lra. }
    destruct Hcase as [(_ & Hm & _) |
      (_ & _ & _ & _ & ic & Hic & Hicm & _ & _ & Hi' & Hct' & Hd' & _)];
      [unfold Jitfix.m in Hm; lia |].
    unfold Jitfix.m in Hicm.
    rewrite Hi', Hct', Hd', take_emit by lia. intros k Hk.
    destruct (decide (k < i s)%nat) as [Hold | Hnew].
    + destruct (HP k Hold) as (row & e' & Hin & Hrow).
      exists row, e'. split; [| exact Hrow]. apply elem_of_app. by left.
    + destruct (merged_end_elem end_ (i s) ic Hic ltac:(lia))
        as (j & _ & _ & Hin).
      eexists _, (merged_end end_ (i s) ic).
      split; [apply elem_of_app; right; by left |]. simpl.
      split; [by eapply list_elem_of_lookup_2 |].
      pose proof (merged_end_sorted end_ (i s) ic Hend Hic ltac:(lia)).
      pose proof (ascending_at start (i s) k Hstart ltac:(lia) ltac:(lia)).
      pose proof (ascending_at end_ k ic Hend ltac:(lia) ltac:(lia)).
      split; [assumption |]. split; [lra |].
      unfold emitted_end. destruct (touches _ _ _); [by right | by left].
  - exists (take (ct s) (data s)), (to_warn s).
    unfold _jitfix_iset. rewrite Hs. split; [reflexivity |].
    intros k b e Hb He.
    pose proof (lookup_lt_Some _ _ _ Hb) as Hk.
    destruct (HP k ltac:(unfold Jitfix.m in *; lia))
      as (row & e' & Hin & Hin' & H1 & H2 & H3).
    exists row, e'. unfold at_ in H1, H2. rewrite Hb in H1. rewrite He in H2.
    by repeat split.
Qed.


(** * Further properties of the dispatch *)

Section Comparison.
Context {engine : NumericEngine} {nap : Pynapple}.

Lemma round64_zero (x : Q) : (x == 0)%Q -> round64 x = 0%Q.
Proof.
  intros H. unfold round64. by rewrite (Qred_complete x 0 H).
Qed.

Lemma div_half_even_nonneg (n d : Z) :
  (0 <= n)%Z -> (0 < d)%Z -> (0 <= div_half_even n d)%Z.
Proof.
  intros Hn Hd. unfold div_half_even.
  pose proof (Z.div_pos n d Hn Hd) as Hq.
  destruct (2 * (n mod d) ?= d)%Z; [destruct (Z.even _) | |]; lia.
Qed.

Lemma round_pos_nonneg (n d : Z) :
  (0 < n)%Z -> (0 < d)%Z -> (0 <= round_pos n d)%Q.
Proof.
  intros Hn Hd. unfold round_pos.
  set (ex := (Z.max (ilog2 n d) (-1022) - 52)%Z).
  destruct (0 <=? ex)%Z eqn:E.
  - apply Z.leb_le in E.
    pose proof (Z.pow_pos_nonneg 2 ex ltac:(lia) E) as Hp.
    pose proof (div_half_even_nonneg n (d * 2 ^ ex) ltac:(lia) ltac:(nia)).
    unfold Qle, inject_Z. simpl. nia.
  - apply Z.leb_gt in E.
    pose proof (Z.pow_pos_nonneg 2 (- ex) ltac:(lia) ltac:(lia)) as Hp.
    pose proof (div_half_even_nonneg (n * 2 ^ (- ex)) d ltac:(nia) Hd).
    rewrite Qred_correct. unfold Qle. simpl. lia.
Qed.

Lemma round64_nonneg (x : Q) : (0 <= x)%Q -> (0 <= round64 x)%Q.
Proof.
  intros Hx. rewrite <- (Qred_correct x) in Hx. unfold round64.
  destruct (Qred x) as [n d]. unfold Qle in Hx. simpl in Hx |- *.
  destruct n as [| n | n]; [lra | | lia].
  apply round_pos_nonneg; lia.
Qed.

Lemma fsub_abs_sym (x y : Q) : (Qabs (fsub x y) == Qabs (fsub y x))%Q.
Proof.
  unfold fsub, round64.
  assert (Qred (y - x) = (- Qred (x - y))%Q) as ->.
  { rewrite <- Qred_opp. apply Qred_complete. ring. }
  destruct (Qred (x - y)) as [[| n | n] d]; cbn [Qopp Qnum Qden Z.opp].
  - reflexivity.
  - symmetry. apply Qabs_opp.
  - apply Qabs_opp.
Qed.

Lemma atol_nonneg : (0 <= atol)%Q.
Proof.
  unfold atol. apply round64_nonneg, Qlt_le_weak, Qlt_shift_div_l.
  - apply Qpower_0_lt. reflexivity.
  - rewrite Qmult_0_l. reflexivity.
Qed.

Lemma isclose_refl (x : Q) : isclose atol x x = true.
Proof.
  unfold isclose, fsub. rewrite (round64_zero (x - x)) by ring.
  apply Qle_bool_iff. simpl. apply atol_nonneg.
Qed.

Lemma isclose_sym (a x y : Q) : isclose a x y = isclose a y x.
Proof. unfold isclose. by rewrite fsub_abs_sym. Qed.

Lemma np_allclose_refl {A} (close : A -> A -> bool) (a : list A) :
  (forall x, close x x = true) -> np_allclose close a a = Ok true.
Proof.
  intros Hrefl. unfold np_allclose. rewrite Nat.eqb_refl. f_equal.
  induction a as [| x a IH]; [reflexivity |]. simpl. by rewrite Hrefl, IH.
Qed.

Lemma check_time_equals_replicate {A} (close : Q -> A -> A -> bool)
    (a : list A) (n : nat) :
  (forall x, close atol x x = true) ->
  _check_time_equals close (replicate n a) = Ok true.
Proof.
  intros Hrefl. unfold _check_time_equals. apply all_map_true.
  apply Forall_forall. intros [x y] Hin.
  apply elem_of_combinations2 in Hin as [Hx Hy]. simpl in Hx, Hy.
  apply elem_of_replicate in Hx as [-> _].
  apply elem_of_replicate in Hy as [-> _].
  by apply np_allclose_refl.
Qed.

Lemma close_interval_refl (r : Q * Q) : close_interval atol r r = true.
Proof. unfold close_interval. by rewrite !isclose_refl. Qed.

(** X7. Copies of one array always compare equal, for indexes and for
    supports and whatever the configured precision is; in particular the
    comparison of no array or of a single array is true. *)
Theorem check_time_equals_copies (ix : list Q) (ts : iset) (n : nat) :
  _check_time_equals close_time (replicate n ix) = Ok true /\
  _check_time_equals close_interval (replicate n ts) = Ok true.
Proof.
  split; apply check_time_equals_replicate.
  - apply isclose_refl.
  - apply close_interval_refl.
Qed.

Lemma forallb_zip_sym {A} (close : A -> A -> bool) (a b : list A) :
  (forall x y, close x y = close y x) ->
  forallb (fun '(x, y) => close x y) (zip a b)
    = forallb (fun '(x, y) => close x y) (zip b a).
Proof.
  intros Hsym. revert b.
  induction a as [| x a IH]; intros [| y b]; try reflexivity.
  simpl. by rewrite Hsym, IH.
Qed.

Lemma forallb_pointwise {A} (f g : A -> bool) (l : list A) :
  (forall x, f x = g x) -> forallb f l = forallb g l.
Proof.
  intros H. induction l as [| x l IH]; [reflexivity |].
  simpl. by rewrite H, IH.
Qed.

Lemma np_allclose_sym {A} (close : A -> A -> bool) (a b : list A) :
  (forall x y, close x y = close y x) ->
  np_allclose close a b = np_allclose close b a.
Proof.
  intros Hsym. unfold np_allclose. rewrite (Nat.eqb_sym (length b)).
  destruct (length a =? length b)%nat eqn:E.
  - f_equal. by apply forallb_zip_sym.
  - apply Nat.eqb_neq in E.
    destruct a as [| x [| x' a]], b as [| y [| y' b]]; simpl in E |- *;
      try reflexivity; try lia; f_equal.
    + rewrite (Hsym x y), (Hsym x y'). do 2 f_equal.
      apply forallb_pointwise. intros z. apply Hsym.
    + rewrite (Hsym x y), (Hsym x' y). do 2 f_equal.
      apply forallb_pointwise. intros z. apply Hsym.
Qed.

(** X8. With [rtol = 0] the comparison of two arrays does not depend on
    their order: same answer, and the same error when their lengths cannot
    be broadcast. *)
Theorem check_time_equals_symmetric (a b : list Q) (s u : iset) :
  _check_time_equals close_time [a; b] = _check_time_equals close_time [b; a] /\
  _check_time_equals close_interval [s; u]
    = _check_time_equals close_interval [u; s].
Proof.
  unfold _check_time_equals. simpl. split.
  - rewrite (np_allclose_sym (close_time atol) a b); [reflexivity |].
    intros x y. apply isclose_sym.
  - rewrite (np_allclose_sym (close_interval atol) s u); [reflexivity |].
    intros x y. unfold close_interval. by rewrite !(isclose_sym _ x.1), !(isclose_sym _ x.2).
Qed.

End Comparison.

Section MoreConcatenation.
Context {engine : NumericEngine} {nap : Pynapple}.

(** X9. Whatever the operands are, when the wrapper returns, it returns
    the output of the numeric engine as it is or the call of a constructor
    whose argument [d] is that output; a warning comes only with the plain
    output, and then exactly one of the three messages; and column labels
    are only passed to the constructor when the leading axis grew. *)
Theorem concatenate_result_shape
    (func : join_function) (args0 : list pyobj) (args_rest : list pyarg)
    (kwargs : option nat) (output : array) (r : retval) (ws : list string)
    (Himpl : join_implementation func (map operand_array args0)
               (effective_axis func args_rest kwargs) = Ok output)
    (Hrun : _concatenate_tsd func args0 args_rest kwargs = Ok (r, ws)) :
  ((r = NdArray output /\
    (ws = [] \/ exists msg, ws = [msg] /\
       msg ∈ [both_msg; indexes_msg; supports_msg])) \/
   (exists c, r = Container c /\ d c = output /\ ws = [] /\
      (kw_columns c <> None ->
       exists a0, head args0 = Some a0 /\
         (length (operand_array a0) < length output)%nat))).
Proof.
  revert Hrun. unfold _concatenate_tsd.
  fold (effective_axis func args_rest kwargs).
  destruct (collect_spec args0 (Collected [] [] [] [] [] None))
    as (-> & -> & -> & -> & ->).
  simpl app. rewrite entries_arrays, Himpl. cbn [mbind res_bind].
  assert (forall a0, head args0 = Some a0 ->
            read (map operand_entry args0) 0 = Ok (operand_entry a0)) as Hhead
    by apply head_operand_entry.
  remember (omap operand_index args0) as ixs eqn:Eixs.
  remember (omap operand_support args0) as tss eqn:Etss.
  remember (omap operand_class args0) as cls eqn:Ecls.
  remember (omap operand_columns args0) as cols eqn:Ecols.
  destruct (head args0) as [a0 |] eqn:Ea0.
  2:{ destruct args0; discriminate. }
  rewrite (Hhead a0 eq_refl). cbn [mbind res_bind].
  destruct (operand_has_shape a0) eqn:Hshape.
  2:{ unfold shape0, operand_entry. simpl. rewrite Hshape. discriminate. }
  rewrite (shape0_entry _ Hshape). cbn [mbind res_bind].
  destruct (length (operand_array a0) <? length output)%nat eqn:Hgrow.
  - destruct (_ && _).
    + destruct (existsb _ _); [discriminate |].
      unfold read. destruct (tss !! 0%nat) as [ts0 |];
        cbn [mbind res_bind]; [| discriminate].
      unfold call_class. destruct (from_option _ _ _) as [c |];
        cbn [mbind res_bind]; [| discriminate].
      intros [= <- <-]. right. eexists. repeat split.
      intros _. exists a0. split; [reflexivity | by apply Nat.ltb_lt].
    + intros [= <- <-]. left. split; [reflexivity | by left].
  - destruct (length ixs =? 1)%nat.
    + unfold read. destruct (ixs !! 0%nat) as [t0 |];
        cbn [mbind res_bind]; [| discriminate].
      destruct (tss !! 0%nat) as [ts0 |];
        cbn [mbind res_bind]; [| discriminate].
      unfold call_class. destruct (from_option _ _ _) as [c |];
        cbn [mbind res_bind]; [| discriminate].
      intros [= <- <-]. right. eexists. repeat split. by intros [].
    + destruct (_check_time_equals close_time ixs) as [te | e];
        cbn [mbind res_bind]; [| discriminate].
      destruct (_check_time_equals close_interval tss) as [se | e];
        cbn [mbind res_bind]; [| discriminate].
      destruct (te && se) eqn:Eboth.
      * unfold read. destruct (ixs !! 0%nat) as [t0 |];
          cbn [mbind res_bind]; [| discriminate].
        destruct (tss !! 0%nat) as [ts0 |];
          cbn [mbind res_bind]; [| discriminate].
        unfold call_class. destruct (from_option _ _ _) as [c |];
          cbn [mbind res_bind]; [| discriminate].
        intros [= <- <-]. right. eexists. repeat split. by intros [].
      * intros [= <- <-]. left. split; [reflexivity |]. right.
        eexists. split; [reflexivity |].
        destruct te, se; simpl;
          repeat (first [by left | right]).
Qed.

(** X10. Growth of the leading axis with every operand exposing its
    metadata: the wrapper raises [RuntimeError] if and only if the joined
    index is not strictly increasing; otherwise it calls the class of the
    last operand with the joined index, the output, the left fold of
    [union] over the supports and the column labels of the first operand
    that has some. *)
Theorem concatenate_index_axis_iff
    (func : join_function) (args0 : list pyobj) (args_rest : list pyarg)
    (kwargs : option nat) (a0 : pyobj) (output : array)
    (Hfirst : head args0 = Some a0)
    (Himpl : join_implementation func (map operand_array args0)
               (effective_axis func args_rest kwargs) = Ok output)
    (Hgrows : (length (operand_array a0) < length output)%nat)
    (Hall : forallb exposes_metadata args0 = true) :
  (_concatenate_tsd func args0 args_rest kwargs
     = Err (RuntimeError not_increasing_msg)
   <-> ~ strictly_increasing (concat (omap operand_index args0))) /\
  (strictly_increasing (concat (omap operand_index args0)) ->
   exists cls ts0 rest,
     last (omap operand_class args0) = Some cls /\
     omap operand_support args0 = ts0 :: rest /\
     _concatenate_tsd func args0 args_rest kwargs
       = Ok (Container (Call cls (concat (omap operand_index args0)) output
                          (Some (foldl union ts0 rest))
                          (head (omap operand_columns args0))), [])).
Proof.
  destruct (concatenate_index_axis func args0 args_rest kwargs a0 output
              Hfirst Himpl Hgrows Hall)
    as [[Hbad Hrun] | (Hinc & cls & ts0 & rest & Hc & Hts & Hrun)].
  - split; [by split |]. intros Hinc. contradiction.
  - split.
    + rewrite Hrun. split; [discriminate | intros Hbad; contradiction].
    + intros _. by exists cls, ts0, rest.
Qed.



End MoreConcatenation.

(** ** The split wrapper *)

Section MoreSplit.
Context {engine : NumericEngine} {nap : Pynapple}.

Lemma length_cumsum (acc : nat) (sizes : list nat) :
  length (cumsum acc sizes) = length sizes.
Proof.
  revert acc. induction sizes as [| x sizes IH]; intros acc; [reflexivity |].
  simpl. by rewrite IH.
Qed.

Lemma slices_length {A} (a : list A) (pts : list nat) :
  length (slices a pts) = pred (length pts).
Proof.
  induction pts as [| st pts IH]; [reflexivity |].
  destruct pts as [| en rest]; [reflexivity |].
  change (slices a (st :: en :: rest))
    with (slice a st en :: slices a (en :: rest)).
  simpl length in *. by rewrite IH.
Qed.

(** The lengths of the sub-arrays depend on the length of the array and
    on the division points only. *)
Lemma slices_aligned {A B} (a : list A) (b : list B) (pts : list nat) :
  length a = length b ->
  Forall (fun td : list A * list B => length td.1 = length td.2)
         (zip (slices a pts) (slices b pts)).
Proof.
  intros Hl. induction pts as [| st pts IH]; [constructor |].
  destruct pts as [| en rest]; [constructor |].
  change (slices a (st :: en :: rest))
    with (slice a st en :: slices a (en :: rest)).
  change (slices b (st :: en :: rest))
    with (slice b st en :: slices b (en :: rest)).
  constructor; [| exact IH].
  unfold slice. simpl. rewrite !length_take, !length_drop. lia.
Qed.

(** When the number of sections divides the length, or with cut points,
    [np.split] and [np.array_split] return the sub-arrays between
    division points that depend on the length of the array only. *)
Lemma np_split_points (L : nat) (ios : indices_or_sections) :
  match ios with
  | Sections N => N <> 0%nat /\ (L mod N = 0)%nat
  | Indices _ => True
  end ->
  exists pts,
    length pts = S (match ios with
                    | Sections N => N
                    | Indices cuts => S (length cuts)
                    end) /\
    forall A (a : list A), length a = L ->
      np_split a ios = Ok (slices a pts) /\
      np_array_split a ios = Ok (slices a pts).
Proof.
  destruct ios as [N | cuts].
  - intros [HN Hmod].
    exists (0%nat :: cumsum 0 (replicate (L mod N) (L / N + 1)%nat
                               ++ replicate (N - L mod N) (L / N)%nat)).
    split.
    + simpl. rewrite length_cumsum, length_app, !length_replicate, Hmod. lia.
    + intros A a <-. unfold np_split, np_array_split.
      replace (N =? 0)%nat with false by (symmetry; apply Nat.eqb_neq; lia).
      rewrite Hmod. by simpl.
  - intros _. exists ([0%nat] ++ cuts ++ [L]). split.
    + rewrite !length_app. simpl. lia.
    + by intros A a <-.
Qed.

(** X13. A container cannot be split into unequal sections: with
    [np.array_split], which allows them on arrays, the wrapper raises
    [ValueError] whenever the number of sections does not divide the
    length of the index, because the index is always split with
    [np.split]. *)
Theorem split_array_split_uneven_raises
    (tsd : pyobj) (vals : array) (ix : list Q) (N : nat)
    (Hvals : values tsd = Some vals) (Hix : index tsd = Some ix)
    (Hodd : N = 0%nat \/ (length ix mod N)%nat <> 0%nat) :
  _split_tsd np_array_split_function tsd (Sections N) 0 = Err ValueError.
Proof.
  unfold _split_tsd.
  change (is_row_split np_array_split_function && (0 =? 0)%nat) with true.
  cbv iota. rewrite Hvals, Hix. cbn [getattr mbind res_bind].
  change (split_implementation np_array_split_function vals (Sections N) None)
    with (np_array_split vals (Sections N)).
  unfold np_array_split, np_split.
  destruct (N =? 0)%nat eqn:EN; [reflexivity |].
  cbn [mbind res_bind].
  destruct Hodd as [-> | Hodd]; [discriminate |].
  replace (length ix mod N =? 0)%nat with false
    by (symmetry; by apply Nat.eqb_neq).
  reflexivity.
Qed.

(** X14. Splitting along the time axis keeps the pieces aligned: with
    [np.split] or [np.array_split], a container whose value array is as
    long as its index, and cut points or a number of sections that
    divides the length, the wrapper returns one container per section;
    each has as many timestamps as rows of values, the class and the
    column labels of the original, and no time support is passed to its
    constructor. *)
Theorem split_row_pieces_aligned
    (func : split_function) (tsd : pyobj) (vals : array) (ix : list Q)
    (ios : indices_or_sections)
    (Hfunc : func = np_split_function \/ func = np_array_split_function)
    (Hvals : values tsd = Some vals) (Hix : index tsd = Some ix)
    (Hshape : length vals = length ix)
    (Hdiv : match ios with
            | Sections N => N <> 0%nat /\ (length ix mod N = 0)%nat
            | Indices _ => True
            end) :
  exists pieces,
    _split_tsd func tsd ios 0 = Ok (Containers pieces) /\
    length pieces = match ios with
                    | Sections N => N
                    | Indices cuts => S (length cuts)
                    end /\
    Forall (fun p => length (t p) = length (d p) /\
                     callee p = __class__ tsd /\
                     kw_time_support p = None /\
                     kw_columns p = columns tsd) pieces.
Proof.
  destruct (np_split_points (length ix) ios Hdiv) as (pts & Hpts & Hsplit).
  destruct (Hsplit _ ix eq_refl) as [Hi _].
  destruct (Hsplit _ vals Hshape) as [Hv Hv'].
  exists (map (fun td : list Q * array =>
                 Call (__class__ tsd) td.1 td.2 None (columns tsd))
              (zip (slices ix pts) (slices vals pts))).
  split; [| split].
  - unfold _split_tsd.
    assert (is_row_split func && (0 =? 0)%nat = true) as ->
      by (destruct Hfunc as [-> | ->]; reflexivity).
    rewrite Hvals, Hix. cbn [getattr mbind res_bind].
    assert (split_implementation func vals ios None = Ok (slices vals pts))
      as -> by (destruct Hfunc as [-> | ->]; assumption).
    cbn [mbind res_bind]. rewrite Hi. reflexivity.
  - rewrite length_map, length_zip, slices_length.
    pose proof (slices_length vals pts) as Hlv. unfold array in *.
    rewrite Hlv, Hpts. simpl. lia.
  - apply Forall_fmap.
    eapply Forall_impl; [apply (slices_aligned ix vals pts); by symmetry |].
    intros [ti di] Hl. simpl in *. by repeat split.
Qed.

(** X15. Splitting along the columns and joining again: the pieces of a
    column split all carry the index of the original, so whatever joins
    them without growing the leading axis returns, without a warning, a
    container of the class of the original on its index.  The support is
    the one that the constructor computed from the index for the first
    piece, not the support of the original, and no column labels are
    passed.  The constructors are those of [construct]. *)
Theorem split_columns_then_join
    (func : split_function) (join : join_function) (tsd : pyobj)
    (vals : array) (ix : list Q) (ios : indices_or_sections) (axis : nat)
    (out : list array) (o0 : array) (args_rest : list pyarg)
    (kwargs : option nat) (output : array)
    (Hcol : is_col_split func = true)
    (Hvals : values tsd = Some vals) (Hix : index tsd = Some ix)
    (Hout : split_implementation func vals ios None = Ok out)
    (Hfirst : head out = Some o0)
    (Hjoin : join_implementation join out
               (effective_axis join args_rest kwargs) = Ok output)
    (Hsame : (length output <= length o0)%nat) :
  exists pieces,
    _split_tsd func tsd ios axis = Ok (Containers pieces) /\
    map d pieces = out /\
    _concatenate_tsd join (map construct pieces) args_rest kwargs
      = Ok (Container (Call (__class__ tsd) ix output
                         (Some (default_support ix)) None), []).
Proof.
  set (P := map (fun d => Call (__class__ tsd) ix d None (columns tsd)) out).
  assert (map d P = out) as HdP.
  { unfold P. rewrite <- list_fmap_compose. apply list_fmap_id. }
  assert (map t P = replicate (length out) ix) as HtP.
  { unfold P. rewrite <- list_fmap_compose. clear.
    induction out as [| o out IH]; [reflexivity |]. simpl. by rewrite <- IH. }
  assert (map (fun p => default (default_support (t p)) (kw_time_support p)) P
          = replicate (length out) (default_support ix)) as HsP.
  { unfold P. rewrite <- list_fmap_compose. clear.
    induction out as [| o out IH]; [reflexivity |]. simpl. by rewrite <- IH. }
  assert (map callee P = replicate (length out) (__class__ tsd)) as HcP.
  { unfold P. rewrite <- list_fmap_compose. clear.
    induction out as [| o out IH]; [reflexivity |]. simpl. by rewrite <- IH. }
  destruct (constructed_operands P) as (Harr & Hidx & Hsup & Hcls & _).
  rewrite HdP in Harr. rewrite HtP in Hidx. rewrite HsP in Hsup.
  rewrite HcP in Hcls.
  exists P. split; [| split; [exact HdP |]].
  - unfold _split_tsd.
    assert (is_row_split func = false) as ->.
    { revert Hcol. unfold is_col_split, is_row_split.
      by destruct (split_id func). }
    rewrite Hcol. simpl andb. cbv iota.
    rewrite Hvals, Hix. cbn [getattr mbind res_bind].
    rewrite Hout. reflexivity.
  - clearbody P. destruct out as [| o out']; [discriminate |].
    injection Hfirst as ->.
    unfold _concatenate_tsd. fold (effective_axis join args_rest kwargs).
    destruct (collect_spec (map construct P) (Collected [] [] [] [] [] None))
      as (-> & -> & -> & -> & ->).
    simpl app. rewrite entries_arrays, Harr, Hidx, Hsup, Hcls, Hjoin.
    cbn [mbind res_bind].
    destruct P as [| p0 P']; [discriminate HdP |].
    injection HdP as Hd0 _.
    rewrite (head_operand_entry (map construct (p0 :: P')) (construct p0)
               eq_refl).
    cbn [mbind res_bind].
    rewrite (shape0_entry (construct p0) eq_refl). cbn [mbind res_bind].
    change (operand_array (construct p0)) with (d p0). rewrite Hd0.
    replace (length o0 <? length output)%nat with false
      by (symmetry; apply Nat.ltb_ge; lia).
    rewrite length_replicate.
    assert (last (replicate (length (o0 :: out')) (__class__ tsd))
            = Some (__class__ tsd)) as ->.
    { generalize (__class__ tsd). clear. intros c.
      induction out' as [| o out' IH]; [reflexivity |].
      simpl in *. by rewrite IH. }
    destruct (length (o0 :: out') =? 1)%nat; [reflexivity |].
    rewrite (check_time_equals_replicate close_time) by apply isclose_refl.
    cbn [mbind res_bind].
    rewrite (check_time_equals_replicate close_interval)
      by apply close_interval_refl.
    reflexivity.
Qed.

End MoreSplit.

(** ** The errors of the concatenation wrapper *)

Section Errors.
Context {engine : NumericEngine} {nap : Pynapple}.


End Errors.

(** * The column selector *)

Section Selector.
Import SliceHelper.
Context {label : Type} `{EqDecision label}.
Variable str : label -> string.

Lemma index_of_elem (k : label) (columns : list label) :
  k ∈ columns ->
  exists n, index_of k columns = Some n /\ columns !! n = Some k.
Proof.
  induction columns as [| c columns IH]; [by intros ?%elem_of_nil |].
  intros Hin. simpl. destruct (decide (c = k)) as [-> | Hne].
  - by exists 0%nat.
  - apply elem_of_cons in Hin as [-> | Hin]; [done |].
    destruct (IH Hin) as (n & -> & Hn). by exists (S n).
Qed.

(** X17. A label that is missing from the columns is reported by name:
    the key raises [IndexError] with the first of its labels that is not a
    column, before the positions are looked up, whether the column labels
    are free of repetitions or not. *)
Theorem getitem_first_missing_label
    (columns pre post : list label) (k : label)
    (Hpre : Forall (fun x => x ∈ columns) pre)
    (Hk : k ∉ columns) :
  __getitem__ str columns (Iterable (pre ++ k :: post))
    = inl (IndexError_ (str k)) /\
  __getitem__ str columns (Scalar k) = inl (IndexError_ (str k)).
Proof.
  split.
  - unfold __getitem__.
    assert (list_find (fun x => x ∉ columns) (pre ++ k :: post)
            = Some (length pre, k)) as ->; [| reflexivity].
    apply list_find_Some. split; [| split].
    + by rewrite lookup_app_r, Nat.sub_diag by lia.
    + exact Hk.
    + intros j y Hj Hlt Hy. rewrite lookup_app_l in Hj by lia.
      rewrite Forall_forall in Hpre. apply Hy, Hpre.
      by eapply list_elem_of_lookup_2.
  - unfold __getitem__. by rewrite bool_decide_eq_true_2.
Qed.

(** X18. When the column labels are free of repetitions and every label of
    the key is a column, the key is answered with one position per label,
    in the order of the key, each the position of its label among the
    columns: a single position for a key of one label, else the positions
    together with the key as the new column labels. *)
Theorem getitem_selects_columns
    (columns ks : list label)
    (Hnodup : NoDup columns)
    (Hks : Forall (fun x => x ∈ columns) ks) :
  exists poss,
    Forall2 (fun (p : Z) k => (0 <= p)%Z /\ columns !! Z.to_nat p = Some k)
            poss ks /\
    __getitem__ str columns (Iterable ks)
      = inr (match poss with
             | [p] => GetColumn p
             | _ => GetColumns poss ks
             end).
Proof.
  exists (map (fun k => from_option Z.of_nat (-1)%Z (index_of k columns)) ks).
  split.
  - induction Hks as [| k ks Hk _ IH]; [constructor |].
    simpl. constructor; [| exact IH].
    destruct (index_of_elem k columns Hk) as (n & -> & Hn). simpl.
    split; [lia | by rewrite Nat2Z.id].
  - unfold __getitem__.
    assert (list_find (fun x => x ∉ columns) ks = None) as ->.
    { apply list_find_None. eapply Forall_impl; [exact Hks |].
      intros x Hx Hnot. by apply Hnot. }
    unfold get_indexer. rewrite bool_decide_eq_true_2 by exact Hnodup.
    by destruct (map _ ks) as [| p [| ? ?]].
Qed.

(** X19. A key that is a list of one label is answered as the label
    itself: a single column, not a frame of one column; and it raises
    what the label raises. *)
Theorem getitem_singleton_is_scalar (columns : list label) (k : label) :
  __getitem__ str columns (Iterable [k]) = __getitem__ str columns (Scalar k).
Proof.
  unfold __getitem__. simpl list_find.
  destruct (decide (k ∉ columns)) as [Hk | Hk].
  - by rewrite bool_decide_eq_true_2.
  - rewrite bool_decide_eq_false_2 by exact Hk.
    unfold get_indexer. by destruct (bool_decide (NoDup columns)).
Qed.

End Selector.

(** * The further properties on concrete inputs *)

Section MoreExamples.
Local Existing Instance example_nap.
Local Open Scope string_scope.
Local Open Scope Q_scope.

Lemma jitfix_flags_are_justified_witness :
  exists d w, _jitfix_iset [0; 2; 3] [2; 4; 3] = Ok (d, w) /\
    length w = 4%nat /\
    forall k, w !! k = Some true -> anomaly [0; 2; 3] [2; 4; 3] k.
Proof.
  apply (jitfix_flags_are_justified [0; 2; 3] [2; 4; 3]). reflexivity.
Defined.

Lemma jitfix_ends_are_input_ends_witness :
  exists d w, _jitfix_iset [0; 2; 3] [2; 4; 3] = Ok (d, w) /\
    Forall (fun row : Q * Q =>
      exists e, e ∈ [2; 4; 3] /\ (row.2 = e \/ row.2 = fsub e epsilon)) d.
Proof.
  apply (jitfix_ends_are_input_ends [0; 2; 3] [2; 4; 3]). reflexivity.
Defined.

Lemma jitfix_starts_subsequence_witness :
  exists d w, _jitfix_iset [0; 1; 5] [10; 2; 6] = Ok (d, w) /\
    d.*1 `sublist_of` [0; 1; 5].
Proof.
  apply (jitfix_starts_subsequence [0; 1; 5] [10; 2; 6]). reflexivity.
Defined.

Lemma jitfix_rows_almost_ordered_witness :
  exists d w, _jitfix_iset [0; 8589934593; 8589934593]
                [-1; 8589934593; 8589934594] = Ok (d, w) /\
    Forall (fun row : Q * Q =>
              exists e, e ∈ [-1; 8589934593; 8589934594] /\ (row.1 <= e)%Q /\
                (row.2 = e \/ row.2 = fsub e epsilon)) d.
Proof.
  apply (jitfix_rows_almost_ordered [0; 8589934593; 8589934593]
           [-1; 8589934593; 8589934594]).
  - reflexivity.
  - simpl. lra.
Defined.

Lemma jitfix_no_flag_no_change_witness :
  exists d w, _jitfix_iset [0; 2] [1; 3] = Ok (d, w) /\
    (w = [false; false; false; false] -> d = zip [0; 2] [1; 3]).
Proof.
  apply (jitfix_no_flag_no_change [0; 2] [1; 3]). reflexivity.
Defined.

Lemma jitfix_covers_input_witness :
  exists d w, _jitfix_iset [0; 8589934593] [8589934593; 8589934594]
              = Ok (d, w) /\
    forall k b e, [0; 8589934593] !! k = Some b ->
      [8589934593; 8589934594] !! k = Some e ->
      exists row e', row ∈ d /\ e' ∈ [8589934593; 8589934594] /\
        (row.1 <= b)%Q /\ (e <= e')%Q /\
        (row.2 = e' \/ row.2 = fsub e' epsilon).
Proof.
  apply (jitfix_covers_input [0; 8589934593] [8589934593; 8589934594]).
  - simpl. lra.
  - simpl. lra.
  - unfold positive_durations. repeat constructor; lra.
Defined.

Lemma concatenate_result_shape_witness :
  (NdArray [[1; 4]; [2; 5]] = NdArray [[1; 4]; [2; 5]] /\
   ([supports_msg] = [] \/ exists msg, [supports_msg] = [msg] /\
      msg ∈ [both_msg; indexes_msg; supports_msg])) \/
  (exists c, NdArray [[1; 4]; [2; 5]] = Container c /\
     d c = [[1; 4]; [2; 5]] /\ [supports_msg] = [] /\
     (kw_columns c <> None ->
      exists a0,
        head [frame [0; 1] [[1]; [2]] [(0, 1)];
              frame [0; 1] [[4]; [5]] [(0, 2)]] = Some a0 /\
        (length (operand_array a0) < length [[1; 4]; [2; 5]])%nat)).
Proof.
  apply (concatenate_result_shape (engine := matrix_engine) np_concatenate
           [frame [0; 1] [[1]; [2]] [(0, 1)];
            frame [0; 1] [[4]; [5]] [(0, 2)]] [PyInt 1] None
           [[1; 4]; [2; 5]] (@NdArray matrix_engine [[1; 4]; [2; 5]])
           [supports_msg]);
    reflexivity.
Defined.

Lemma concatenate_index_axis_iff_witness :
  (_concatenate_tsd np_concatenate
     [frame [0; 1] [[1]; [2]] [(0, 1)]; frame [2; 3] [[3]; [4]] [(2, 3)]]
     [] None
   = Err (RuntimeError not_increasing_msg)
   <-> ~ strictly_increasing
         (concat (omap operand_index
            [frame [0; 1] [[1]; [2]] [(0, 1)];
             frame [2; 3] [[3]; [4]] [(2, 3)]]))) /\
  (strictly_increasing
     (concat (omap operand_index
        [frame [0; 1] [[1]; [2]] [(0, 1)];
         frame [2; 3] [[3]; [4]] [(2, 3)]])) ->
   exists cls ts0 rest,
     last (omap operand_class
        [frame [0; 1] [[1]; [2]] [(0, 1)];
         frame [2; 3] [[3]; [4]] [(2, 3)]]) = Some cls /\
     omap operand_support
        [frame [0; 1] [[1]; [2]] [(0, 1)];
         frame [2; 3] [[3]; [4]] [(2, 3)]] = ts0 :: rest /\
     _concatenate_tsd np_concatenate
       [frame [0; 1] [[1]; [2]] [(0, 1)]; frame [2; 3] [[3]; [4]] [(2, 3)]]
       [] None
       = Ok (Container
               (Call cls
                  (concat (omap operand_index
                     [frame [0; 1] [[1]; [2]] [(0, 1)];
                      frame [2; 3] [[3]; [4]] [(2, 3)]]))
                  [[1]; [2]; [3]; [4]]
                  (Some (foldl union ts0 rest))
                  (head (omap operand_columns
                     [frame [0; 1] [[1]; [2]] [(0, 1)];
                      frame [2; 3] [[3]; [4]] [(2, 3)]]))), [])).
Proof.
  apply (concatenate_index_axis_iff (engine := matrix_engine) np_concatenate
           [frame [0; 1] [[1]; [2]] [(0, 1)];
            frame [2; 3] [[3]; [4]] [(2, 3)]] [] None
           (frame [0; 1] [[1]; [2]] [(0, 1)]) [[1]; [2]; [3]; [4]]);
    first [reflexivity | simpl; lia].
Defined.



Lemma split_array_split_uneven_raises_witness :
  _split_tsd np_array_split_function
    (frame [0; 1; 2] [[1]; [2]; [3]] [(0, 2)]) (Sections 2) 0
  = Err ValueError.
Proof.
  apply (split_array_split_uneven_raises (engine := matrix_engine)
           (frame [0; 1; 2] [[1]; [2]; [3]] [(0, 2)])
           [[1]; [2]; [3]] [0; 1; 2] 2); try reflexivity.
  right. discriminate.
Defined.

Lemma split_row_pieces_aligned_witness :
  exists pieces,
    _split_tsd np_array_split_function
      (frame [0; 1; 2] [[1]; [2]; [3]] [(0, 2)]) (Indices [1%nat]) 0
      = Ok (Containers pieces) /\
    length pieces = 2%nat /\
    Forall (fun p => length (t p) = length (d p) /\
                     callee p = "TsdFrame" /\
                     kw_time_support p = None /\
                     kw_columns p = Some labels) pieces.
Proof.
  apply (split_row_pieces_aligned (engine := matrix_engine) np_array_split_function
           (frame [0; 1; 2] [[1]; [2]; [3]] [(0, 2)])
           [[1]; [2]; [3]] [0; 1; 2] (Indices [1%nat]));
    first [reflexivity | by right | exact I].
Defined.

Lemma split_columns_then_join_witness :
  exists pieces,
    _split_tsd np_hsplit_function
      (frame [0; 1] [[1; 2]; [3; 4]] [(0, 5)]) (Sections 2) 1
      = Ok (Containers pieces) /\
    map d pieces = [[[1]; [3]]; [[2]; [4]]] /\
    _concatenate_tsd np_concatenate (map construct pieces) [PyInt 1] None
      = Ok (Container (Call "TsdFrame" [0; 1] [[1; 2]; [3; 4]]
                         (Some (default_support [0; 1])) None), []).
Proof.
  apply (split_columns_then_join (engine := matrix_engine) np_hsplit_function np_concatenate
           (frame [0; 1] [[1; 2]; [3; 4]] [(0, 5)])
           [[1; 2]; [3; 4]] [0; 1] (Sections 2) 1
           [[[1]; [3]]; [[2]; [4]]] [[1]; [3]] [PyInt 1] None
           [[1; 2]; [3; 4]]);
    first [reflexivity | simpl; lia].
Defined.

(** With the precision 9, the index entries [0.0] and [1e-09] pass the
    test of the code: the float64 [1 / 10**9] is [1e-09] itself. *)
Lemma float_tolerance_boundary :
  close_time atol 0 (round64 (1 # 1000000000)) = true /\
  (atol == round64 (1 # 1000000000))%Q.
Proof. split; vm_compute; reflexivity. Qed.


Lemma getitem_first_missing_label_witness :
  SliceHelper.__getitem__ id ["a"; "b"]
    (SliceHelper.Iterable (["b"] ++ "c" :: ["d"]))
    = inl (SliceHelper.IndexError_ "c") /\
  SliceHelper.__getitem__ id ["a"; "b"] (SliceHelper.Scalar "c")
    = inl (SliceHelper.IndexError_ "c").
Proof.
  apply (getitem_first_missing_label id ["a"; "b"] ["b"] ["d"] "c").
  - repeat constructor.
  - intros H. apply list_elem_of_In in H. simpl in H.
    destruct H as [H | [H | []]]; discriminate H.
Defined.

Lemma getitem_selects_columns_witness :
  exists poss,
    Forall2 (fun (p : Z) k =>
               (0 <= p)%Z /\ ["a"; "b"; "c"] !! Z.to_nat p = Some k)
            poss ["c"; "a"] /\
    SliceHelper.__getitem__ id ["a"; "b"; "c"] (SliceHelper.Iterable ["c"; "a"])
      = inr (match poss with
             | [p] => SliceHelper.GetColumn p
             | _ => SliceHelper.GetColumns poss ["c"; "a"]
             end).
Proof.
  apply (getitem_selects_columns id ["a"; "b"; "c"] ["c"; "a"]).
  - apply (bool_decide_unpack _). vm_compute. exact I.
  - repeat constructor.
Defined.

End MoreExamples.
